(** * Invest or Defend: the client-side game services

    A shallow embedding of the round ledger, the phase handlers, the poll
    registry and the co-operative vote tally of
    [src/js/gameServices/baseGame.service.ts] and
    [src/js/gameServices/cooperativeGame.service.ts], together with the
    button logic of [src/js/gameServices/baseRendering.service.ts].

    Conventions of the embedding.
    - The service object ([this]) is the record [Game]; a method is a
      computation in the monad [M], which threads the object and may end
      in a JavaScript exception.  Fields assigned before a [throw] keep
      their new values, as in JavaScript.
    - In the service object money amounts are whole currency units in
      [Z].  JavaScript computes them in binary64; the module [Doubles]
      embeds the ledger statements of the stage and de-stage handlers in
      binary64 ([SpecFloat]), and [doubles_agree_on_whole_amounts] shows
      that the two agree as long as the figures are whole numbers below
      2^53.  Statements about fractional amounts are made in [Doubles].
    - Rendering, dialogs and AJAX requests are appended to the [effects]
      log of the object, in program order.  The success callback of an
      asynchronous request is a later event and is not part of the
      handler that issues the request; the callbacks of the one
      synchronous request ([_getOrganisationDetails]) run inside the
      handler, on the reply that the field [server] holds.
    - Calls of the rendering service that build the main display, the
      event log and the balance are not embedded; they change no field
      of the service object, and the field [rendering] says whether they
      complete or what they throw.
    - What a handler reads from the DOM at click time (element id, button
      value, enclosing modal, ...) is carried by the [Event] record. *)

From Stdlib Require Import ZArith Ascii String List Lia.
From Stdlib Require QArith.QArith_base QArith.Qround.
From Stdlib Require Floats.SpecFloat.
From stdpp Require Import base option list strings gmap fin_maps.

Open Scope string_scope.
Open Scope list_scope.
Open Scope Z_scope.

(** ** Data model ([types/typings.d.ts], [_helpers/enums]) *)

(** [GameState]: the enumeration imported from [_helpers]; its members are
    the ones the services switch on. *)
Inductive GameState : Type :=
  | Purchasing | Placing | Simulating | Results | Ended.

Inductive GameType : Type :=
  | SinglePlayer | Cooperative | Competitive.

(** The control view mode, ['tiles'] or ['table']. *)
Inductive ViewMode : Type :=
  | tiles | table.

Definition DEFAULT_CONTROL_VIEW_MODE : ViewMode := tiles.

#[global] Instance GameState_eq_dec : EqDecision GameState.
Proof. solve_decision. Defined.
#[global] Instance GameType_eq_dec : EqDecision GameType.
Proof. solve_decision. Defined.
#[global] Instance ViewMode_eq_dec : EqDecision ViewMode.
Proof. solve_decision. Defined.

Record Control : Type := {
  control_id : string;
  control_number : string;
  control_name : string;
  control_cost : Z;
  control_asset : option string   (* [asset?: string] *)
}.

Record Asset : Type := {
  asset_slug : string;
  asset_name : string
}.

Record Organisation : Type := {
  org_id : string;
  org_members : list string;
  org_controls : list Control
}.

(** [Votes]: one vote record, an action id and the ids of its voters. *)
Record Votes : Type := {
  vote_id : string;
  vote_votes : list string
}.

Record VoteSummaryEntry : Type := {
  entry_id : string;
  entry_votes : Z;
  entry_hasVoted : bool
}.

Record VoteSummary : Type := {
  summary_votes : list VoteSummaryEntry;
  summary_threshold : Z
}.

(** The functions the services register for polling. *)
Inductive Callback : Type :=
  | cb_renderSimulateButton
  | cb_handleClickViewAvailableControls
  | cb_checkReadyToSimulateTurn.

(** Captured arguments of a poll ([args: any[]]). *)
Inductive Arg : Type :=
  | ArgState (st : GameState)
  | ArgVotes (v : VoteSummary)
  | ArgMode (m : ViewMode)
  | ArgBool (b : bool)
  | ArgTurn (n : Z).

Record Poll : Type := {
  poll_callback : Callback;
  poll_args : list Arg
}.

(** The button a control gets in the available-controls modal. *)
Inductive ControlButton : Type :=
  | RemoveButton
  | ImplementButton
  | InsufficientFundsButton.

#[global] Instance ControlButton_eq_dec : EqDecision ControlButton.
Proof. solve_decision. Defined.

(** ** Effects on the outside world *)

Inductive Request : Type :=
  | GetImplementedControls
  | GetNewControls
  (* [organisations/${organisation.id}/get/controls/new], for the
     organisation a reply names *)
  | GetNewControlsOf (organisationId : string)
  | GetOrganisationDetails (id : string)
  | PostSimulateTurn
  | PatchAddControl (controlId : string)
  | PatchVotes (vs : list Votes).

Inductive Effect : Type :=
  | RenderGameStateBanner (st : GameState)
  | RenderSimulateButton (st : GameState) (votes : option VoteSummary)
  | RenderSpendFigures (available allocated : Z) (show : bool)
  | RenderAvailableControlsModal
      (buttons : list (string * ControlButton)) (mode : ViewMode)
      (votes : option VoteSummary)
  | RenderImplementedControlsModal
      (cs : list Control) (mode : ViewMode) (asset : option Asset)
  | RenderControlPlacementModal (cs : list Control)
  | RenderResultsScreen (spent invested : Z)
  (* a stretch of code that is not embedded, see [unembedded] *)
  | Rendering (call : string)
  | LocalStorageSetItem (key : string)
  | RenderModalLoading (modal : string)
  | ToggleModal (modal : string)
  | SetBannerHtml (html : string)
  | WindowAlert (msg : string)
  | WindowConfirm (msg : string)
  | Ajax (r : Request).

(** The reply to the synchronous request of [_getOrganisationDetails]:
    the id of the organisation the server returns, or the status of the
    failed request. *)
Inductive Response : Type :=
  | Success (organisationId : string)
  | Failure (status statusText : string).

(** ** The service object *)

Record Game : Type := {
  _gameType : GameType;
  _userId : string;
  _assets : list Asset;
  state : GameState;
  moneyPerTurn : Z;
  organisation : Organisation;
  spendAvailable : Z;
  spendAllocated : Z;
  newControls : list Control;
  (* [string[]]; [None] is an [undefined] element *)
  controlsToImplement : list (option string);
  (* [None] is [null] *)
  _placingControl : option Control;
  _polls : gmap string Poll;
  _votes : list Votes;
  effects : list Effect;
  (* The surroundings.  What the server replies to a synchronous request
     and whether a rendering call that is not embedded completes ([None])
     or throws; either may depend on all that has happened so far. *)
  server : list Effect -> Response;
  rendering : list Effect -> option string
}.

Definition set_state (v : GameState) (g : Game) : Game :=
  {| _gameType := _gameType g; _userId := _userId g; _assets := _assets g;
     state := v; moneyPerTurn := moneyPerTurn g;
     organisation := organisation g; spendAvailable := spendAvailable g;
     spendAllocated := spendAllocated g; newControls := newControls g;
     controlsToImplement := controlsToImplement g;
     _placingControl := _placingControl g; _polls := _polls g;
     _votes := _votes g; effects := effects g;
     server := server g; rendering := rendering g |}.

Definition set_spendAvailable (v : Z) (g : Game) : Game :=
  {| _gameType := _gameType g; _userId := _userId g; _assets := _assets g;
     state := state g; moneyPerTurn := moneyPerTurn g;
     organisation := organisation g; spendAvailable := v;
     spendAllocated := spendAllocated g; newControls := newControls g;
     controlsToImplement := controlsToImplement g;
     _placingControl := _placingControl g; _polls := _polls g;
     _votes := _votes g; effects := effects g;
     server := server g; rendering := rendering g |}.

Definition set_spendAllocated (v : Z) (g : Game) : Game :=
  {| _gameType := _gameType g; _userId := _userId g; _assets := _assets g;
     state := state g; moneyPerTurn := moneyPerTurn g;
     organisation := organisation g; spendAvailable := spendAvailable g;
     spendAllocated := v; newControls := newControls g;
     controlsToImplement := controlsToImplement g;
     _placingControl := _placingControl g; _polls := _polls g;
     _votes := _votes g; effects := effects g;
     server := server g; rendering := rendering g |}.

Definition set_controlsToImplement (v : list (option string)) (g : Game) : Game :=
  {| _gameType := _gameType g; _userId := _userId g; _assets := _assets g;
     state := state g; moneyPerTurn := moneyPerTurn g;
     organisation := organisation g; spendAvailable := spendAvailable g;
     spendAllocated := spendAllocated g; newControls := newControls g;
     controlsToImplement := v;
     _placingControl := _placingControl g; _polls := _polls g;
     _votes := _votes g; effects := effects g;
     server := server g; rendering := rendering g |}.

Definition set_placingControl (v : option Control) (g : Game) : Game :=
  {| _gameType := _gameType g; _userId := _userId g; _assets := _assets g;
     state := state g; moneyPerTurn := moneyPerTurn g;
     organisation := organisation g; spendAvailable := spendAvailable g;
     spendAllocated := spendAllocated g; newControls := newControls g;
     controlsToImplement := controlsToImplement g;
     _placingControl := v; _polls := _polls g;
     _votes := _votes g; effects := effects g;
     server := server g; rendering := rendering g |}.

Definition set_polls (v : gmap string Poll) (g : Game) : Game :=
  {| _gameType := _gameType g; _userId := _userId g; _assets := _assets g;
     state := state g; moneyPerTurn := moneyPerTurn g;
     organisation := organisation g; spendAvailable := spendAvailable g;
     spendAllocated := spendAllocated g; newControls := newControls g;
     controlsToImplement := controlsToImplement g;
     _placingControl := _placingControl g; _polls := v;
     _votes := _votes g; effects := effects g;
     server := server g; rendering := rendering g |}.

Definition set_votes (v : list Votes) (g : Game) : Game :=
  {| _gameType := _gameType g; _userId := _userId g; _assets := _assets g;
     state := state g; moneyPerTurn := moneyPerTurn g;
     organisation := organisation g; spendAvailable := spendAvailable g;
     spendAllocated := spendAllocated g; newControls := newControls g;
     controlsToImplement := controlsToImplement g;
     _placingControl := _placingControl g; _polls := _polls g;
     _votes := v; effects := effects g;
     server := server g; rendering := rendering g |}.

Definition set_effects (v : list Effect) (g : Game) : Game :=
  {| _gameType := _gameType g; _userId := _userId g; _assets := _assets g;
     state := state g; moneyPerTurn := moneyPerTurn g;
     organisation := organisation g; spendAvailable := spendAvailable g;
     spendAllocated := spendAllocated g; newControls := newControls g;
     controlsToImplement := controlsToImplement g;
     _placingControl := _placingControl g; _polls := _polls g;
     _votes := _votes g; effects := v;
     server := server g; rendering := rendering g |}.

(** ** The method monad: state of [this] plus JavaScript exceptions *)

Inductive Completion (A : Type) : Type :=
  | Normal (a : A)
  | Thrown (exn : string).
Arguments Normal {A} a.
Arguments Thrown {A} exn.

Definition M (A : Type) : Type := Game -> Completion A * Game.

#[global] Instance M_ret : MRet M := fun A a g => (Normal a, g).

#[global] Instance M_bind : MBind M := fun A B f m g =>
  match m g with
  | (Normal a, g') => f a g'
  | (Thrown e, g') => (Thrown e, g')
  end.

Definition this : M Game := fun g => (Normal g, g).
Definition assign (f : Game -> Game) : M unit := fun g => (Normal tt, f g).
Definition throw {A : Type} (exn : string) : M A := fun g => (Thrown exn, g).
Definition emit (e : Effect) : M unit :=
  assign (fun g => set_effects (effects g ++ [e]) g).

(** The object a method leaves behind, and how it completed. *)
Definition exec {A : Type} (m : M A) (g : Game) : Game := snd (m g).
Definition completion {A : Type} (m : M A) (g : Game) : Completion A := fst (m g).

(** The [TypeError] of reading a property of [undefined] or [null]. *)
Definition TypeError : string := "TypeError".

(** ** What a handler reads from the DOM *)

Record Event : Type := {
  (* [event.target.id] *)
  target_id : string;
  (* [event.target.value]: the cost written on the button *)
  target_value : Z;
  (* [$(event.target).parents('.modal').attr('id')] *)
  target_modal_id : option string;
  (* [$(`#${modalId}`).children('.modal__content').hasClass('modal__content--tiles')] *)
  modal_content_tiles : bool;
  (* [$(event.target).parents('.modal__content').hasClass('modal__content--tiles')] *)
  target_content_tiles : bool;
  (* [$('#asset-controls .asset-name').attr('id')] *)
  asset_name_id : option string;
  (* [$(event.target).parent('.assets__asset, .environment-header__image').attr('id')] *)
  parent_asset_id : option string;
  (* [$(event.target).parents('.tile').attr('id')] *)
  parent_tile_id : option string
}.

(** [String.prototype.split] on a one-character separator. *)
Fixpoint split (sep : Ascii.ascii) (s : string) : list string :=
  match s with
  | EmptyString => [EmptyString]
  | String c rest =>
      if Ascii.eqb c sep then EmptyString :: split sep rest
      else match split sep rest with
           | piece :: pieces => String c piece :: pieces
           | [] => [String c EmptyString]
           end
  end.

(** Whether a character occurs in a string. *)
Fixpoint occurs (c : Ascii.ascii) (s : string) : bool :=
  match s with
  | EmptyString => false
  | String c' rest => Ascii.eqb c' c || occurs c rest
  end.

(** [id.split('-')[1]]; [None] is [undefined]. *)
Definition controlIdFrom (id : string) : option string :=
  split "-"%char id !! 1%nat.

(** [event.target.id.split('-')[1]]. *)
Definition controlIdOf (ev : Event) : option string :=
  controlIdFrom (target_id ev).

(** [value || fallback] on a string that may be [undefined]: the empty
    string is falsy as well. *)
Definition or_default (value : option string) (fallback : string) : string :=
  match value with
  | Some v => if decide (v = "") then fallback else v
  | None => fallback
  end.

(** ** Rendering service ([baseRendering.service.ts]) *)

(** A stretch of code that is not embedded: a call of the rendering
    service ([renderDisplay], [renderEventLogTable], [renderBalance],
    ...) or statements over data that is not modelled (the threat
    actors, the events of the organisation).  It writes to the page and
    may throw (['Unknown environment value!'] of [renderDisplay], the
    error object of [_getEnvironmentDimensions], a [TypeError] on
    missing data); it assigns none of the fields of [Game]. *)
Definition unembedded (call : string) : M unit :=
  emit (Rendering call);;
  g ← this;
  match rendering g (effects g) with
  | Some exn => throw exn
  | None => mret tt
  end.

(** The id of the button of a control in the available-controls modal
    ([id="control-${control.id}"]). *)
Definition controlButtonId (control : Control) : string :=
  ("control-" ++ control_id control)%string.

(** The id of a tile, [_renderTile]: [id="control-${id}-tile"]. *)
Definition controlTileId (id : string) : string :=
  ("control-" ++ id ++ "-tile")%string.

(** The button of [_renderAvailableControlsTiles] and
    [_renderAvailableControlsTable]: Remove for a staged control,
    Implement for an affordable one, else the disabled
    "Insufficient Funds" button. *)
Definition controlButton (control : Control)
    (controlsToImplement : list (option string)) (spendAvailable : Z)
    : ControlButton :=
  if decide (Some (control_id control) ∈ controlsToImplement) then RemoveButton
  else if decide (control_cost control <= spendAvailable) then ImplementButton
  else InsufficientFundsButton.

Definition renderAvailableControlsModal (newControls : list Control)
    (controlsToImplement : list (option string)) (spendAvailable : Z)
    (mode : ViewMode) (votes : option VoteSummary) : M unit :=
  emit (RenderAvailableControlsModal
          (map (fun c => (control_id c,
                          controlButton c controlsToImplement spendAvailable))
               newControls)
          mode votes).

(** [renderSimulateButton(state)] of the base rendering service; the
    [switch] has no case for [Ended]. *)
Definition renderSimulateButton (st : GameState) (votes : option VoteSummary)
    : M unit :=
  match st with
  | Ended => throw "Unknown game state!"
  | _ => emit (RenderSimulateButton st votes)
  end.

(** ** Poll registry ([BaseMultiplayerGameService]) *)

(** [_polls] is a plain object ([Polls = {}]): the map holds its own
    properties, and a read [this._polls[key]] also finds what the object
    inherits from [Object.prototype]. *)
Definition objectPrototypeNames : list string :=
  ["constructor"; "hasOwnProperty"; "isPrototypeOf"; "propertyIsEnumerable";
   "toLocaleString"; "toString"; "valueOf"; "__defineGetter__";
   "__defineSetter__"; "__lookupGetter__"; "__lookupSetter__"; "__proto__"].

(** [this._polls[key]] as a condition: an own entry (an object) or an
    inherited property (a function, or the prototype itself), all
    truthy. *)
Definition pollFound (g : Game) (key : string) : bool :=
  bool_decide (is_Some (_polls g !! key) \/ key ∈ objectPrototypeNames).

Definition _addPoll (key : string) (callback : Callback) (args : list Arg)
    : M unit :=
  g ← this;
  if pollFound g key then mret tt
  else
    assign (set_polls
              (<[key := {| poll_callback := callback; poll_args := args |}]>
                 (_polls g))).

(** [delete] removes an own property and leaves what is inherited. *)
Definition _removePoll (key : string) : M unit :=
  g ← this;
  if pollFound g key then assign (set_polls (delete key (_polls g)))
  else mret tt.

(** ** Vote tally ([CooperativeGameService]) *)

(** [Math.ceil(this.organisation.members.length / 2)], over the rationals. *)
Definition _getVoteThreshold (g : Game) : Z :=
  Qround.Qceiling
    (QArith_base.Qdiv
       (QArith_base.inject_Z (Z.of_nat (length (org_members (organisation g)))))
       (QArith_base.inject_Z 2)).

(** The gate [tally >= this._getVoteThreshold()] of the three vote
    handlers and of [_checkPassingVotes]. *)
Definition reachesThreshold (g : Game) (tally : Z) : bool :=
  bool_decide (_getVoteThreshold g <= tally).

(** [this._votes[voteIndex].votes.length]. *)
Definition _getVoteTally (voteIndex : nat) : M Z :=
  g ← this;
  match _votes g !! voteIndex with
  | Some vote => mret (Z.of_nat (length (vote_votes vote)))
  | None => throw TypeError
  end.

Definition _getVoteSummaries (g : Game) : VoteSummary :=
  {| summary_votes :=
       map (fun element =>
              {| entry_id := vote_id element;
                 entry_votes := Z.of_nat (length (vote_votes element));
                 (* [!!find(...)]: the voter id found, as a boolean *)
                 entry_hasVoted :=
                   match list_find (fun voterId => voterId = _userId g)
                                   (vote_votes element) with
                   | Some (_, voterId) => bool_decide (voterId ≠ "")
                   | None => false
                   end |})
           (_votes g);
     summary_threshold := _getVoteThreshold g |}.

Definition _updateVotes : M unit :=
  g ← this;
  emit (Ajax (PatchVotes (_votes g))).

(** Cast or revoke the logged-in user's vote; returns the index at which
    the record was found (or pushed). *)
Definition _toggleVote (voteId : string) : M nat :=
  g ← this;
  match list_find (fun vote => vote_id vote = voteId) (_votes g) with
  | None =>
      let voteIndex := length (_votes g) in
      assign (fun g =>
        set_votes (_votes g ++
                   [{| vote_id := voteId; vote_votes := [_userId g] |}]) g);;
      _updateVotes;;
      mret voteIndex
  | Some (voteIndex, vote) =>
      if reachesThreshold g (Z.of_nat (length (vote_votes vote)))
      then mret voteIndex
      else
        match list_find (fun voterId => voterId = _userId g)
                        (vote_votes vote) with
        | Some _ =>
            let remaining :=
              filter (fun voterId => voterId ≠ _userId g) (vote_votes vote) in
            assign (fun g =>
              set_votes (<[voteIndex := {| vote_id := vote_id vote;
                                           vote_votes := remaining |}]>
                           (_votes g)) g);;
            match remaining with
            | [] => assign (fun g => set_votes (delete voteIndex (_votes g)) g)
            | _ :: _ => mret tt
            end
        | None =>
            assign (fun g =>
              set_votes (<[voteIndex := {| vote_id := vote_id vote;
                                           vote_votes := vote_votes vote
                                                         ++ [_userId g] |}]>
                           (_votes g)) g)
        end;;
        _updateVotes;;
        mret voteIndex
  end.

(** [_deleteVotes(voteId?)]: an absent or empty id deletes all votes. *)
Definition _deleteVotes (voteId : option string) : M unit :=
  g ← this;
  match voteId with
  | Some id =>
      if decide (id = "") then assign (set_votes [])
      else
        match list_find (fun vote => vote_id vote = id) (_votes g) with
        | Some (voteIndex, _) => assign (set_votes (delete voteIndex (_votes g)))
        | None => mret tt
        end
  | None => assign (set_votes [])
  end.

(** The override of [_handleClickViewAvailableControls] in
    [CooperativeGameService]: render with the vote summaries, then
    register the modal for polling. *)
Definition _handleClickViewAvailableControls_cooperative (mode : ViewMode)
    : M unit :=
  g ← this;
  renderAvailableControlsModal (newControls g) (controlsToImplement g)
    (spendAvailable g) mode (Some (_getVoteSummaries g));;
  _addPoll "new-controls" cb_handleClickViewAvailableControls
    [ArgMode mode; ArgBool false].

(** ** Base game service ([BaseGameService]) *)

Module BaseGameService.

Definition newline : string := String (ascii_of_nat 10) EmptyString.
Definition quote : string := String (ascii_of_nat 34) EmptyString.

Definition confirmNoControls : string :=
  ("You have not selected any controls." ++ newline ++ newline
   ++ "Are you sure you wish to continue?")%string.

Definition _handleClickViewImplementedControls (mode : ViewMode) : M unit :=
  emit (Ajax GetImplementedControls).

(** A virtual method: the co-operative service overrides it. *)
Definition _handleClickViewAvailableControls (mode : ViewMode)
    (makeRequest : bool) : M unit :=
  g ← this;
  match _gameType g with
  | Cooperative => _handleClickViewAvailableControls_cooperative mode
  | SinglePlayer | Competitive =>
      if makeRequest then emit (Ajax GetNewControls)
      else renderAvailableControlsModal (newControls g)
             (controlsToImplement g) (spendAvailable g) mode None
  end.

(** [asset] may be [undefined]: the filter callback then throws on
    [asset.slug] as soon as there is a control to test. *)
Definition _showAssetControls (asset : option Asset) (mode : ViewMode)
    : M unit :=
  g ← this;
  match asset with
  | Some a =>
      emit (RenderImplementedControlsModal
              (filter (fun control => control_asset control = Some (asset_slug a))
                      (org_controls (organisation g)))
              mode (Some a))
  | None =>
      match org_controls (organisation g) with
      | [] => emit (RenderImplementedControlsModal [] mode None)
      | _ :: _ => throw TypeError
      end
  end.

(** The [switch (modalId)] that re-renders the modal a control button
    sits in; shared by the stage and de-stage handlers. *)
Definition rerenderModal (event : Event) : M unit :=
  g ← this;
  let modalId := or_default (target_modal_id event) "new-controls" in
  let viewMode := if modal_content_tiles event then tiles else table in
  if decide (modalId = "new-controls") then
    _handleClickViewAvailableControls viewMode false
  else if decide (modalId = "implemented-controls") then
    _handleClickViewImplementedControls viewMode
  else if decide (modalId = "asset-controls") then
    _showAssetControls
      (snd <$> list_find (fun asset => Some (asset_slug asset) = asset_name_id event)
                         (_assets g))
      viewMode
  else throw "Could not get parent table ID".

(** Stage a control for implementation. *)
Definition _handleClickImplementControl (event : Event) : M unit :=
  g ← this;
  (if decide (0 <= spendAvailable g - target_value event) then
     assign (fun g => set_spendAvailable (spendAvailable g - target_value event) g);;
     assign (fun g => set_spendAllocated (spendAllocated g + target_value event) g);;
     assign (fun g =>
       set_controlsToImplement (controlsToImplement g ++ [controlIdOf event]) g)
   else mret tt);;
  g ← this;
  emit (RenderSpendFigures (spendAvailable g) (spendAllocated g) true);;
  rerenderModal event.

(** De-stage a control from implementation. *)
Definition _handleClickRemoveControl (event : Event) : M unit :=
  assign (fun g => set_spendAvailable (spendAvailable g + target_value event) g);;
  assign (fun g => set_spendAllocated (spendAllocated g - target_value event) g);;
  let controlId := controlIdOf event in
  assign (fun g =>
    set_controlsToImplement
      (filter (fun id => id ≠ controlId) (controlsToImplement g)) g);;
  rerenderModal event;;
  g ← this;
  emit (RenderSpendFigures (spendAvailable g) (spendAllocated g) true).

Definition _implementControl (controlId : string) : M unit :=
  emit (Ajax (PatchAddControl controlId)).

(** The request is synchronous ([async: false]), so that its callbacks
    run before the call returns: on success the organisation is stored
    and its new controls are requested, on failure the default error
    handler alerts. *)
Definition _getOrganisationDetails (id : string) : M unit :=
  emit (Ajax (GetOrganisationDetails id));;
  g ← this;
  match server g (effects g) with
  | Success organisationId =>
      emit (LocalStorageSetItem "organisation");;
      emit (Ajax (GetNewControlsOf organisationId))
  | Failure status statusText =>
      emit (WindowAlert ("Error - " ++ status ++ ": " ++ statusText)%string)
  end.

(** [_renderGameState], with the call to [_placeControls] of its
    [Placing] case left open: the two methods call each other through
    [_simulateTurn]. *)
Definition renderGameStateWith (_placeControls : M unit) (st : GameState)
    : M unit :=
  emit (RenderGameStateBanner st);;
  renderSimulateButton st None;;
  match st with
  | Purchasing =>
      assign (fun g => set_spendAvailable (moneyPerTurn g) g);;
      assign (set_spendAllocated 0);;
      unembedded "renderTurnNumber";;
      unembedded "renderBalance";;
      unembedded "renderEventLogTable";;
      g ← this;
      emit (RenderSpendFigures (spendAvailable g) (spendAllocated g) true);;
      unembedded "renderDisplay";;
      (* the filter over [_threatActors] and, when it finds any, their
         warning modal *)
      unembedded "newThreatActors"
  | Placing => _placeControls
  | Simulating =>
      g ← this;
      emit (RenderSpendFigures (spendAvailable g) (spendAllocated g) false);;
      _getOrganisationDetails (org_id (organisation g));;
      emit (RenderModalLoading "turn-results");;
      emit (ToggleModal "turn-results")
  | Results =>
      g ← this;
      (* the amounts spent and invested *)
      emit (RenderResultsScreen (spendAllocated g) (spendAvailable g));;
      (* the amount lost, summed over the events of the organisation *)
      unembedded "amount-lost";;
      unembedded "renderEventLogTable";;
      unembedded "renderBalance"
  | Ended =>
      unembedded "renderEventLogTable";;
      unembedded "renderBalance";;
      emit (ToggleModal "end-of-game")
  end.

(** A virtual method: the competitive service overrides it and only
    posts the request (its rendering happens in the success callback). *)
Definition _simulateTurn : M unit :=
  g ← this;
  match _gameType g with
  | Competitive => emit (Ajax PostSimulateTurn)
  | SinglePlayer | Cooperative =>
      (* [this._renderGameState(GameState.Simulating)]: that case does
         not reach [_placeControls] *)
      renderGameStateWith (mret tt) Simulating;;
      emit (Ajax PostSimulateTurn)
  end.

Definition _placeControls : M unit :=
  g ← this;
  match controlsToImplement g with
  | _ :: _ =>
      emit (RenderControlPlacementModal
              (filter (fun control => Some (control_id control) ∈ controlsToImplement g)
                      (newControls g)))
  | [] => _simulateTurn
  end.

Definition _renderGameState (st : GameState) : M unit :=
  renderGameStateWith _placeControls st.

Definition _resetControlSelection : M unit :=
  assign (set_placingControl None);;
  assign (set_controlsToImplement []);;
  assign (fun g => set_spendAvailable (moneyPerTurn g) g);;
  assign (set_spendAllocated 0).

(** Simulate a new turn; [answer] is what the player replies to the
    [confirm] dialog, should it open. *)
Definition _handleClickSimulateTurn (answer : bool) : M unit :=
  g ← this;
  match controlsToImplement g with
  | [] =>
      emit (WindowConfirm confirmNoControls);;
      if answer then _simulateTurn else mret tt
  | _ :: _ =>
      assign (set_state Placing);;
      g ← this;
      _renderGameState (state g)
  end.

(** Select a control to place. *)
Definition _handleClickPlacableControl (event : Event) : M unit :=
  g ← this;
  (* [$(event.target).attr('id') || $(event.target).parents('.tile').attr('id')] *)
  let elementId :=
    if decide (target_id event = "") then parent_tile_id event
    else Some (target_id event) in
  (* [controlId.split('-')[1]]: [undefined.split] throws *)
  controlId ← match elementId with
              | Some id => mret (controlIdFrom id)
              | None => throw TypeError
              end;
  match list_find (fun control => Some (control_id control) = controlId)
                  (newControls g) with
  | Some (_, control) =>
      assign (set_placingControl (Some control));;
      emit (ToggleModal "control-placement");;
      emit (SetBannerHtml
              ("Placing <span id=" ++ quote ++ "control-to-place-name" ++ quote
               ++ ">" ++ control_number control ++ ".&nbsp;"
               ++ control_name control ++ "</span>")%string)
  | None =>
      assign (set_placingControl None);;
      throw "Error getting control!"
  end.

Section AssetIcon.

(** [AssetLocations]: the table imported from [_helpers]. *)
Variable AssetLocations : gmap string Asset.

(** Checks control placement against an asset. *)
Definition _handleClickAssetIcon (event : Event) : M unit :=
  g ← this;
  match state g with
  | Purchasing =>
      let assetSlug := parent_asset_id event in
      let asset :=
        match list_find (fun asset => Some (asset_slug asset) = assetSlug)
                        (_assets g) with
        | Some (_, a) => Some a
        | None => assetSlug ≫= fun slug => AssetLocations !! slug
        end in
      _showAssetControls asset DEFAULT_CONTROL_VIEW_MODE
  | Placing =>
      match _placingControl g with
      | None => throw TypeError
      | Some placing =>
          if decide (control_asset placing = parent_asset_id event) then
            assign (fun g =>
              set_controlsToImplement
                (filter (fun controlId => Some (control_id placing) ≠ controlId)
                        (controlsToImplement g)) g);;
            _implementControl (control_id placing);;
            assign (set_placingControl None);;
            emit (SetBannerHtml "Placing");;
            emit (WindowAlert "Correct!");;
            _placeControls
          else emit (WindowAlert "Incorrect! Please try again.")
      end
  | Simulating | Results | Ended => mret tt
  end.

End AssetIcon.

End BaseGameService.

(** ** Co-operative game service ([CooperativeGameService]) *)

Module CooperativeGameService.

(** Vote to simulate a new turn.  [event] is optional in the source;
    reading [event.target] of an absent event throws. *)
Definition _handleClickSimulateTurn (event : option Event) (answer : bool)
    : M unit :=
  match event with
  | None => throw TypeError
  | Some ev =>
      voteIndex ← _toggleVote (target_id ev);
      g ← this;
      renderSimulateButton (state g) (Some (_getVoteSummaries g));;
      tally ← _getVoteTally voteIndex;
      g ← this;
      if reachesThreshold g tally then
        _deleteVotes None;;
        BaseGameService._handleClickSimulateTurn answer
      else mret tt
  end.

(** Vote to stage a control for implementation. *)
Definition _handleClickImplementControl (event : Event) : M unit :=
  voteIndex ← _toggleVote (target_id event);
  g ← this;
  renderAvailableControlsModal (newControls g) (controlsToImplement g)
    (spendAvailable g)
    (if target_content_tiles event then tiles else table)
    (Some (_getVoteSummaries g));;
  tally ← _getVoteTally voteIndex;
  g ← this;
  if reachesThreshold g tally then
    _deleteVotes (Some (target_id event));;
    BaseGameService._handleClickImplementControl event
  else mret tt.

(** Vote to de-stage a control from implementation. *)
Definition _handleClickRemoveControl (event : Event) : M unit :=
  voteIndex ← _toggleVote (target_id event);
  g ← this;
  renderAvailableControlsModal (newControls g) (controlsToImplement g)
    (spendAvailable g)
    (if target_content_tiles event then tiles else table)
    (Some (_getVoteSummaries g));;
  tally ← _getVoteTally voteIndex;
  g ← this;
  if reachesThreshold g tally then
    _deleteVotes (Some (target_id event));;
    BaseGameService._handleClickRemoveControl event
  else mret tt.

End CooperativeGameService.

(** ** Sequences of ledger operations within a round *)

Inductive LedgerOp : Type :=
  | Stage (event : Event)
  | Unstage (event : Event).

Definition perform (op : LedgerOp) : M unit :=
  match op with
  | Stage event => BaseGameService._handleClickImplementControl event
  | Unstage event => BaseGameService._handleClickRemoveControl event
  end.

(** The service object after every call of a sequence, in order. *)
Fixpoint run (ops : list LedgerOp) (g : Game) : list Game :=
  match ops with
  | [] => []
  | op :: rest => let g' := exec (perform op) g in g' :: run rest g'
  end.

(** The ledger invariant of a round. *)
Definition ledgerBalanced (g : Game) : Prop :=
  spendAvailable g + spendAllocated g = moneyPerTurn g.

(** Staging a sequence of clicks on control buttons. *)
Fixpoint stageAll (events : list Event) (g : Game) : Game :=
  match events with
  | [] => g
  | event :: rest =>
      stageAll rest (exec (BaseGameService._handleClickImplementControl event) g)
  end.

(** [implementOffered g event]: the click is on a button that the
    available-controls modal, rendered from [g], shows as "Implement":
    the element id and the value of the click are those written for
    some catalogue control ([id="control-${control.id}"],
    [value="${control.cost}"]), and [controlButton] gives that control
    the Implement button. *)
Definition implementOffered (g : Game) (event : Event) : bool :=
  bool_decide
    (Exists (fun control =>
               target_id event = controlButtonId control /\
               target_value event = control_cost control /\
               controlButton control (controlsToImplement g) (spendAvailable g)
               = ImplementButton)
            (newControls g)).

(** Every click of the sequence is on a button offered at that moment. *)
Fixpoint eachOffered (events : list Event) (g : Game) : bool :=
  match events with
  | [] => true
  | event :: rest =>
      implementOffered g event
      && eachOffered rest (exec (BaseGameService._handleClickImplementControl event) g)
  end.

(** The voters recorded for an action; no record means no votes. *)
Definition votersOf (votes : list Votes) (voteId : string) : list string :=
  match list_find (fun vote => vote_id vote = voteId) votes with
  | Some (_, vote) => vote_votes vote
  | None => []
  end.

(** [unchangedRound g g']: a method took [g] to [g'] without touching
    the phase, the ledger, the placement candidate or the votes; only
    the effect log and the poll registry may differ. *)
Record unchangedRound (g g' : Game) : Prop := {
  same_gameType : _gameType g' = _gameType g;
  same_userId : _userId g' = _userId g;
  same_state : state g' = state g;
  same_moneyPerTurn : moneyPerTurn g' = moneyPerTurn g;
  same_organisation : organisation g' = organisation g;
  same_spendAvailable : spendAvailable g' = spendAvailable g;
  same_spendAllocated : spendAllocated g' = spendAllocated g;
  same_newControls : newControls g' = newControls g;
  same_controlsToImplement : controlsToImplement g' = controlsToImplement g;
  same_placingControl : _placingControl g' = _placingControl g;
  same_votes : _votes g' = _votes g
}.

(** ** Sample data *)

Definition firewall : Control :=
  {| control_id := "c1"; control_number := "1"; control_name := "Firewall";
     control_cost := 400; control_asset := Some "server" |}.

Definition backups : Control :=
  {| control_id := "c2"; control_number := "2"; control_name := "Backups";
     control_cost := 700; control_asset := Some "laptop" |}.

Definition training : Control :=
  {| control_id := "c3"; control_number := "3"; control_name := "Training";
     control_cost := 300; control_asset := None |}.

Definition sampleOrganisation : Organisation :=
  {| org_id := "org1"; org_members := ["u1"; "u2"; "u3"]; org_controls := [] |}.

(** A game at the start of a round: allowance 1000, nothing staged; the
    server answers and every rendering call completes. *)
Definition sampleGameWith (gameType : GameType) (org : Organisation)
    (votes : list Votes) : Game :=
  {| _gameType := gameType; _userId := "u1";
     _assets := [ {| asset_slug := "server"; asset_name := "Server" |};
                  {| asset_slug := "laptop"; asset_name := "Laptop" |} ];
     state := Purchasing; moneyPerTurn := 1000;
     organisation := org;
     spendAvailable := 1000; spendAllocated := 0;
     newControls := [firewall; backups; training];
     controlsToImplement := []; _placingControl := None;
     _polls := ∅; _votes := votes; effects := [];
     server := fun _ => Success (org_id org); rendering := fun _ => None |}.

Definition sampleGame (gameType : GameType) : Game :=
  sampleGameWith gameType sampleOrganisation [].

(** A co-operative game of five members (threshold 3) with the given
    votes on record. *)
Definition fiveMembers : Organisation :=
  {| org_id := "org1"; org_members := ["u1"; "u2"; "u3"; "u4"; "u5"];
     org_controls := [] |}.

Definition cooperativeGame (votes : list Votes) : Game :=
  sampleGameWith Cooperative fiveMembers votes.


(** The same, with a second action on record that two others voted for. *)
Definition loneVoteBesideOthers : Game :=
  sampleGameWith Cooperative sampleOrganisation
    [{| vote_id := "simulate-turn"; vote_votes := ["u1"] |};
     {| vote_id := "control-c1"; vote_votes := ["u2"; "u3"] |}].

(** A co-operative game of three members in which the logged-in user is
    the only voter for staging the firewall. *)
Definition loneStageVoteGame : Game :=
  sampleGameWith Cooperative sampleOrganisation
    [{| vote_id := "control-c1"; vote_votes := ["u1"] |}].

(** A click on the button of a control in the available-controls modal. *)
Definition clickControl (control : Control) : Event :=
  {| target_id := ("control-" ++ control_id control)%string;
     target_value := control_cost control;
     target_modal_id := Some "new-controls";
     modal_content_tiles := true; target_content_tiles := true;
     asset_name_id := None; parent_asset_id := None;
     parent_tile_id := Some ("control-" ++ control_id control ++ "-tile")%string |}.

(** A click on an asset icon of the game display. *)
Definition clickAsset (slug : string) : Event :=
  {| target_id := ""; target_value := 0; target_modal_id := None;
     modal_content_tiles := false; target_content_tiles := false;
     asset_name_id := None; parent_asset_id := Some slug;
     parent_tile_id := None |}.

(** A click on the Simulate Turn button. *)
Definition clickSimulateTurn : Event :=
  {| target_id := "simulate-turn"; target_value := 0; target_modal_id := None;
     modal_content_tiles := false; target_content_tiles := false;
     asset_name_id := None; parent_asset_id := None; parent_tile_id := None |}.

(** The ledger on entry to Purchasing, and a sequence of clicks. *)
Definition roundStart : Game :=
  exec (BaseGameService._renderGameState Purchasing) (sampleGame SinglePlayer).

Definition sampleOps : list LedgerOp :=
  [Stage (clickControl firewall); Stage (clickControl backups);
   Unstage (clickControl firewall); Stage (clickControl backups)].

(** The sample round after staging the firewall (cost 400). *)
Definition afterFirewall : Game :=
  exec (BaseGameService._handleClickImplementControl (clickControl firewall))
       roundStart.

(** A click inside the tile of a control in the placement modal. *)
Definition clickTile (control : Control) : Event :=
  {| target_id := ""; target_value := 0;
     target_modal_id := Some "control-placement";
     modal_content_tiles := true; target_content_tiles := true;
     asset_name_id := None; parent_asset_id := None;
     parent_tile_id := Some ("control-" ++ control_id control ++ "-tile")%string |}.

(** The sample round in the Placing phase, the firewall (which belongs
    on the server) picked for placement. *)
Definition placingFirewall : Game :=
  exec (BaseGameService._handleClickPlacableControl (clickTile firewall))
       (exec (BaseGameService._handleClickSimulateTurn true) afterFirewall).

(** ** Further notions of the vote tally *)

(** The guard of [_toggleVote] for the record of an action: a record
    whose tally has reached the threshold is left alone. *)
Definition locked (g : Game) (voteId : string) : bool :=
  match list_find (fun vote => vote_id vote = voteId) (_votes g) with
  | Some (_, vote) => reachesThreshold g (Z.of_nat (length (vote_votes vote)))
  | None => false
  end.

(** A well-formed vote list, as [_toggleVote] builds it: one record per
    action, every record with at least one voter, no voter twice. *)
Definition recordsWellFormed (votes : list Votes) : Prop :=
  NoDup (vote_id <$> votes) /\
  Forall (fun vote => vote_votes vote ≠ [] /\ NoDup (vote_votes vote)) votes.


(** A vote-gated stage or de-stage click. *)
Definition performCooperative (op : LedgerOp) : M unit :=
  match op with
  | Stage event => CooperativeGameService._handleClickImplementControl event
  | Unstage event => CooperativeGameService._handleClickRemoveControl event
  end.

(** The click of a ledger operation. *)
Definition opEvent (op : LedgerOp) : Event :=
  match op with
  | Stage event => event
  | Unstage event => event
  end.

(** Every de-stage click of the sequence carries a non-negative cost. *)
Definition refundsNonNegative (ops : list LedgerOp) : bool :=
  forallb (fun op => match op with
                     | Stage _ => true
                     | Unstage event => bool_decide (0 <= target_value event)
                     end) ops.

(** ** Placing the staged controls one by one *)

(** A click inside the tile of a control in the placement modal. *)
Definition tileClick (control : Control) : Event :=
  {| target_id := ""; target_value := 0;
     target_modal_id := Some "control-placement";
     modal_content_tiles := true; target_content_tiles := true;
     asset_name_id := None; parent_asset_id := None;
     parent_tile_id := Some (controlTileId (control_id control)) |}.

(** A click on the icon of the asset a control belongs on. *)
Definition ownAssetClick (control : Control) : Event :=
  {| target_id := ""; target_value := 0; target_modal_id := None;
     modal_content_tiles := false; target_content_tiles := false;
     asset_name_id := None; parent_asset_id := control_asset control;
     parent_tile_id := None |}.

(** Pick a control in the placement modal, then click its asset. *)
Definition placeOne (AssetLocations : gmap string Asset) (control : Control)
    (g : Game) : Game :=
  exec (BaseGameService._handleClickAssetIcon AssetLocations
          (ownAssetClick control))
       (exec (BaseGameService._handleClickPlacableControl (tileClick control)) g).

Fixpoint placeAll (AssetLocations : gmap string Asset)
    (controls : list Control) (g : Game) : Game :=
  match controls with
  | [] => g
  | control :: rest =>
      placeAll AssetLocations rest (placeOne AssetLocations control g)
  end.

(** ** Further sample data *)

(** Five members, one other member has voted to simulate the turn. *)
Definition oneVoteGame : Game :=
  cooperativeGame [{| vote_id := "simulate-turn"; vote_votes := ["u2"] |}].

(** Three members (threshold 2); another member has voted to stage the
    firewall and another to simulate the turn: the user's vote passes
    either action. *)
Definition stageVoteGame : Game :=
  sampleGameWith Cooperative sampleOrganisation
    [{| vote_id := "control-c1"; vote_votes := ["u2"] |};
     {| vote_id := "simulate-turn"; vote_votes := ["u3"] |}].

(** Five members (threshold 3) and the same two votes: the user's vote
    leaves either action below the threshold. *)
Definition shortVoteGame : Game :=
  cooperativeGame
    [{| vote_id := "control-c1"; vote_votes := ["u2"] |};
     {| vote_id := "simulate-turn"; vote_votes := ["u3"] |}].

(** The sample round in the Placing phase with the firewall and the
    training staged. *)
Definition placingTwo : Game :=
  exec (BaseGameService._handleClickSimulateTurn true)
       (stageAll [clickControl firewall; clickControl training] roundStart).

(** ** The ledger in binary64 *)

Module Doubles.

(** JavaScript numbers: IEEE 754 binary64 with rounding to nearest, ties
    to even, as [SpecFloat] specifies it (53 bits of precision, exponents
    below 1024). *)
Definition double : Type := SpecFloat.spec_float.

Definition add : double -> double -> double := SpecFloat.SFadd 53 1024.
Definition sub : double -> double -> double := SpecFloat.SFsub 53 1024.
Definition div : double -> double -> double := SpecFloat.SFdiv 53 1024.

(** The double of a whole number. *)
Definition ofZ (n : Z) : double :=
  SpecFloat.binary_normalize 53 1024 n 0 false.

(** The double a decimal numeral with [places] fractional digits
    denotes: the one nearest to [n / 10^places].  Numerator and power of
    ten are exact (below 2^53) and the division rounds once. *)
Definition decimal (n : Z) (places : nat) : double :=
  div (ofZ n) (ofZ (10 ^ Z.of_nat places)).

(** [x >= 0.0] *)
Definition nonNegative (x : double) : bool :=
  SpecFloat.SFleb (SpecFloat.S754_zero false) x.

(** [x == y] *)
Definition eqb : double -> double -> bool := SpecFloat.SFeqb.

(** The three fields of the service object that the stage and de-stage
    handlers assign. *)
Record Ledger : Type := {
  spendAvailable : double;
  spendAllocated : double;
  controlsToImplement : list (option string)
}.

(** What the two handlers read from the click:
    [event.target.id.split('-')[1]] and the number on the button.  The
    button value is the text [`${control.cost}`] of a number, from which
    [parseFloat] and the coercion of [-] read the same double back. *)
Record Click : Type := {
  controlId : option string;
  value : double
}.

(** The ledger statements of [_handleClickImplementControl]. *)
Definition _handleClickImplementControl (click : Click) (l : Ledger)
    : Ledger :=
  if nonNegative (sub (spendAvailable l) (value click)) then
    {| spendAvailable := sub (spendAvailable l) (value click);
       spendAllocated := add (spendAllocated l) (value click);
       controlsToImplement := controlsToImplement l ++ [controlId click] |}
  else l.

(** The ledger statements of [_handleClickRemoveControl]. *)
Definition _handleClickRemoveControl (click : Click) (l : Ledger) : Ledger :=
  {| spendAvailable := add (spendAvailable l) (value click);
     spendAllocated := sub (spendAllocated l) (value click);
     controlsToImplement :=
       filter (fun id => id ≠ controlId click) (controlsToImplement l) |}.

Inductive Op : Type :=
  | Stage (click : Click)
  | Unstage (click : Click).

Definition perform (op : Op) (l : Ledger) : Ledger :=
  match op with
  | Stage click => _handleClickImplementControl click l
  | Unstage click => _handleClickRemoveControl click l
  end.

(** The ledger after every call of a sequence, in order. *)
Fixpoint run (ops : list Op) (l : Ledger) : list Ledger :=
  match ops with
  | [] => []
  | op :: rest => perform op l :: run rest (perform op l)
  end.

(** [spendAvailable + spendAllocated == moneyPerTurn] *)
Definition ledgerBalanced (moneyPerTurn : double) (l : Ledger) : bool :=
  eqb (add (spendAvailable l) (spendAllocated l)) moneyPerTurn.

(** Whole numbers as doubles.  [shl p n] is [p * 2^n], [digits p] the
    number of binary digits of [p], and [canonical s q] the double of
    the whole number [signed s q] when [q] is below 2^53: its mantissa
    is [q] shifted to 53 digits. *)
Definition shl (p : positive) (n : nat) : positive := Nat.iter n xO p.

Definition digits (p : positive) : Z := Zpos (SpecFloat.digits2_pos p).

Definition canonical (s : bool) (q : positive) : double :=
  SpecFloat.S754_finite s (shl q (Z.to_nat (53 - digits q))) (digits q - 53).

Definition signed (s : bool) (q : positive) : Z :=
  SpecFloat.cond_Zopp s (Zpos q).

End Doubles.

(** The binary64 ledger of a service object whose figures are whole, and
    the binary64 reading of a click whose value is whole. *)
Definition ledgerOf (g : Game) : Doubles.Ledger :=
  {| Doubles.spendAvailable := Doubles.ofZ (spendAvailable g);
     Doubles.spendAllocated := Doubles.ofZ (spendAllocated g);
     Doubles.controlsToImplement := controlsToImplement g |}.

Definition clickOf (event : Event) : Doubles.Click :=
  {| Doubles.controlId := controlIdOf event;
     Doubles.value := Doubles.ofZ (target_value event) |}.

Definition opOf (op : LedgerOp) : Doubles.Op :=
  match op with
  | Stage event => Doubles.Stage (clickOf event)
  | Unstage event => Doubles.Unstage (clickOf event)
  end.

(** The amounts a sequence of clicks can move, in absolute value. *)
Definition amounts (ops : list LedgerOp) : Z :=
  foldr (fun op total => Z.abs (target_value (opEvent op)) + total) 0 ops.

(** A round priced in pence: an allowance of 1000 and controls that cost
    199.99, 349.95 and 120.10. *)
Definition penceClick (id : string) (pence : Z) : Doubles.Click :=
  {| Doubles.controlId := Some id; Doubles.value := Doubles.decimal pence 2 |}.

Definition penceStart : Doubles.Ledger :=
  {| Doubles.spendAvailable := Doubles.ofZ 1000;
     Doubles.spendAllocated := Doubles.ofZ 0;
     Doubles.controlsToImplement := [] |}.

Definition penceOps : list Doubles.Op :=
  [Doubles.Stage (penceClick "c1" 19999);
   Doubles.Stage (penceClick "c2" 34995);
   Doubles.Stage (penceClick "c3" 12010)].

(** A ledger of 800.01 available and 199.99 allocated, and a click on a
    control that costs 56.02. *)
Definition penceLedger : Doubles.Ledger :=
  {| Doubles.spendAvailable := Doubles.decimal 80001 2;
     Doubles.spendAllocated := Doubles.decimal 19999 2;
     Doubles.controlsToImplement := [] |}.

(** A control whose id contains a dash, alone in the catalogue. *)
Definition gateway : Control :=
  {| control_id := "a-b"; control_number := "4"; control_name := "Gateway";
     control_cost := 100; control_asset := Some "server" |}.

Definition dashedGame : Game :=
  {| _gameType := SinglePlayer; _userId := "u1"; _assets := [];
     state := Purchasing; moneyPerTurn := 1000;
     organisation := sampleOrganisation;
     spendAvailable := 1000; spendAllocated := 0;
     newControls := [gateway];
     controlsToImplement := []; _placingControl := None;
     _polls := ∅; _votes := []; effects := [];
     server := fun _ => Success "org1"; rendering := fun _ => None |}.

(** A service object whose server is down and whose display does not
    render. *)
Definition brokenSurroundings : Game :=
  {| _gameType := SinglePlayer; _userId := "u1"; _assets := [];
     state := Purchasing; moneyPerTurn := 1000;
     organisation := sampleOrganisation;
     spendAvailable := 250; spendAllocated := 750;
     newControls := [firewall; backups; training];
     controlsToImplement := []; _placingControl := None;
     _polls := ∅; _votes := []; effects := [];
     server := fun _ => Failure "503" "Service Unavailable";
     rendering := fun _ => Some "Unknown environment value!" |}.

(** * Reasoning about methods *)

Lemma exec_bind {A B : Type} (m : M A) (f : A -> M B) (g : Game) :
  exec (m ≫= f) g =
  match completion m g with
  | Normal a => exec (f a) (exec m g)
  | Thrown _ => exec m g
  end.
Proof.
  unfold exec, completion, mbind, M_bind.
  destruct (m g) as [[a|e] g']; reflexivity.
Qed.

Lemma completion_bind {A B : Type} (m : M A) (f : A -> M B) (g : Game) :
  completion (m ≫= f) g =
  match completion m g with
  | Normal a => completion (f a) (exec m g)
  | Thrown e => Thrown e
  end.
Proof.
  unfold exec, completion, mbind, M_bind.
  destruct (m g) as [[a|e] g']; reflexivity.
Qed.

(** The [Simulating] case of [_renderGameState] does not depend on
    [_placeControls]: [_simulateTurn] renders what
    [_renderGameState Simulating] renders. *)
Lemma renderGameState_Simulating :
  BaseGameService._renderGameState Simulating
  = BaseGameService.renderGameStateWith (mret tt) Simulating.
Proof. reflexivity. Qed.

Ltac run_method :=
  unfold exec, completion, mbind, M_bind, mret, M_ret, this, assign, emit,
    throw; simpl.

Lemma rerenderModal_unchangedRound (event : Event) (g : Game) :
  unchangedRound g (exec (BaseGameService.rerenderModal event) g).
Proof.
  unfold BaseGameService.rerenderModal,
    BaseGameService._handleClickViewAvailableControls,
    BaseGameService._handleClickViewImplementedControls,
    BaseGameService._showAssetControls,
    _handleClickViewAvailableControls_cooperative,
    renderAvailableControlsModal, _addPoll.
  run_method.
  repeat (case_decide; simpl);
    repeat (match goal with
            | |- context [match ?x with _ => _ end] => destruct x; simpl
            end);
    constructor; reflexivity.
Qed.

Ltac use_rerender_frame :=
  match goal with
  | |- context [BaseGameService.rerenderModal ?e ?x] =>
      destruct (rerenderModal_unchangedRound e x);
      unfold exec in *; simpl in *
  end.

Lemma stage_effect (event : Event) (g : Game) :
  let g' := exec (BaseGameService._handleClickImplementControl event) g in
  moneyPerTurn g' = moneyPerTurn g /\
  state g' = state g /\
  _placingControl g' = _placingControl g /\
  newControls g' = newControls g /\
  (0 <= spendAvailable g - target_value event ->
     spendAvailable g' = spendAvailable g - target_value event /\
     spendAllocated g' = spendAllocated g + target_value event /\
     controlsToImplement g' = controlsToImplement g ++ [controlIdOf event]) /\
  (spendAvailable g - target_value event < 0 ->
     spendAvailable g' = spendAvailable g /\
     spendAllocated g' = spendAllocated g /\
     controlsToImplement g' = controlsToImplement g).
Proof.
  unfold BaseGameService._handleClickImplementControl.
  run_method.
  case_decide; simpl; use_rerender_frame;
    repeat split; intros; try lia; congruence.
Qed.

Lemma unstage_effect (event : Event) (g : Game) :
  let g' := exec (BaseGameService._handleClickRemoveControl event) g in
  moneyPerTurn g' = moneyPerTurn g /\
  state g' = state g /\
  _placingControl g' = _placingControl g /\
  newControls g' = newControls g /\
  spendAvailable g' = spendAvailable g + target_value event /\
  spendAllocated g' = spendAllocated g - target_value event /\
  controlsToImplement g' =
    filter (fun id => id ≠ controlIdOf event) (controlsToImplement g).
Proof.
  unfold BaseGameService._handleClickRemoveControl.
  run_method.
  use_rerender_frame.
  destruct (BaseGameService.rerenderModal _ _) as [[[]|exn] g1]; simpl in *;
    repeat split; congruence.
Qed.

Lemma perform_keeps_balance (op : LedgerOp) (g : Game) :
  let g' := exec (perform op) g in
  moneyPerTurn g' = moneyPerTurn g /\
  spendAvailable g' + spendAllocated g' = spendAvailable g + spendAllocated g.
Proof.
  destruct op as [event|event]; simpl.
  - destruct (stage_effect event g) as (Hm & _ & _ & _ & Hyes & Hno).
    split; [exact Hm|].
    destruct (Z_lt_le_dec (spendAvailable g - target_value event) 0) as [Hlt|Hle].
    + destruct (Hno Hlt) as (-> & -> & _). reflexivity.
    + destruct (Hyes Hle) as (-> & -> & _). lia.
  - destruct (unstage_effect event g) as (Hm & _ & _ & _ & -> & -> & _).
    split; [exact Hm | lia].
Qed.

Lemma run_keeps_balance (ops : list LedgerOp) (g : Game) :
  ledgerBalanced g -> Forall ledgerBalanced (run ops g).
Proof.
  revert g. induction ops as [|op ops IH]; intros g Hg; simpl.
  - constructor.
  - assert (ledgerBalanced (exec (perform op) g)) as Hg'.
    { destruct (perform_keeps_balance op g) as [Hm Hsum].
      unfold ledgerBalanced in *. congruence. }
    constructor; [exact Hg' | apply IH, Hg'].
Qed.

Lemma filter_other_absent {A : Type} `{EqDecision A} (x : A) (l : list A) :
  x ∉ l -> filter (fun y => y ≠ x) l = l.
Proof.
  induction l as [|y l IH]; intros Hx; [reflexivity|].
  apply not_elem_of_cons in Hx as [Hne Hx].
  rewrite filter_cons_True by congruence.
  rewrite IH by assumption. reflexivity.
Qed.

Lemma filter_other_removes {A : Type} `{EqDecision A} (x : A) (l : list A) :
  x ∉ filter (fun y => y ≠ x) l.
Proof.
  intros Hin. apply list_elem_of_filter in Hin as [Hne _]. congruence.
Qed.

(** ** Element ids *)

Lemma split_without_separator (sep : Ascii.ascii) (s : string) :
  occurs sep s = false -> split sep s = [s].
Proof.
  induction s as [|c s IH]; simpl; [reflexivity|].
  intros Hocc. apply orb_false_iff in Hocc as [Hc Hs].
  rewrite Hc, (IH Hs). reflexivity.
Qed.

Lemma split_at_separator (sep : Ascii.ascii) (s rest : string) :
  occurs sep s = false ->
  split sep (s ++ String sep rest)%string = s :: split sep rest.
Proof.
  induction s as [|c s IH]; simpl; intros Hocc.
  - rewrite Ascii.eqb_refl. reflexivity.
  - apply orb_false_iff in Hocc as [Hc Hs].
    rewrite Hc, (IH Hs). reflexivity.
Qed.

Lemma controlButtonId_parsed (control : Control) :
  occurs "-"%char (control_id control) = false ->
  controlIdFrom (controlButtonId control) = Some (control_id control).
Proof.
  intros Hid. unfold controlIdFrom, controlButtonId.
  change (split "-"%char ("control-" ++ control_id control)%string)
    with ("control" :: split "-"%char (control_id control)).
  rewrite (split_without_separator _ _ Hid). reflexivity.
Qed.

Lemma controlTileId_parsed (id : string) :
  occurs "-"%char id = false ->
  controlIdFrom (controlTileId id) = Some id.
Proof.
  intros Hid. unfold controlIdFrom, controlTileId.
  change (split "-"%char ("control-" ++ id ++ "-tile")%string)
    with ("control" :: split "-"%char (id ++ String "-"%char "tile")%string).
  rewrite (split_at_separator _ _ _ Hid). reflexivity.
Qed.

(** ** Simulating the turn *)

Lemma set_effects_set_effects (l l' : list Effect) (g : Game) :
  set_effects l (set_effects l' g) = set_effects l g.
Proof. reflexivity. Qed.

Ltac not_among :=
  let Hin := fresh "Hin" in
  intros Hin;
  repeat (apply elem_of_cons in Hin as [Hin|Hin]; [discriminate|]);
  apply elem_of_nil in Hin; exact Hin.

(** [_simulateTurn] completes and only adds to the effect log: the
    request that simulates the turn comes last; the Simulating screen is
    shown first unless the game is competitive; the Placing banner is
    not shown. *)
Lemma simulateTurn_effect (g : Game) :
  completion BaseGameService._simulateTurn g = Normal tt /\
  exists shown : list Effect,
    exec BaseGameService._simulateTurn g = set_effects (effects g ++ shown) g /\
    last shown = Some (Ajax PostSimulateTurn) /\
    (RenderGameStateBanner Placing ∉ shown) /\
    (RenderGameStateBanner Simulating ∈ shown <-> _gameType g ≠ Competitive).
Proof.
  unfold BaseGameService._simulateTurn, BaseGameService.renderGameStateWith,
    BaseGameService._getOrganisationDetails, renderSimulateButton.
  run_method.
  destruct (_gameType g) eqn:Htype; simpl;
    try (destruct (server g _) as [organisationId|status statusText]; simpl);
    (split; [reflexivity|]);
    rewrite ?set_effects_set_effects, <- ?app_assoc;
    eexists; (split; [reflexivity|]);
    (split; [reflexivity|]);
    (split; [not_among|]);
    try (split; [intros _; discriminate | intros _; apply list_elem_of_here]).
  split; [|intros Hne; contradiction].
  intros Hin. exfalso. revert Hin. not_among.
Qed.

(** * Whole numbers in binary64 *)

(** Doubles represent the whole numbers below 2^53 and add and subtract
    them exactly.  The proofs follow [SpecFloat]: a whole number has a
    canonical mantissa of 53 digits whose low bits are zero, and
    aligning and rounding only move those zeros. *)

Module DoubleFacts.

Import SpecFloat.
Import Doubles.

Lemma digits_pos p : 1 <= digits p.
Proof. unfold digits. lia. Qed.

Lemma shl_S p n : shl p (S n) = xO (shl p n).
Proof. reflexivity. Qed.

Lemma shl_0 p : shl p 0 = p.
Proof. reflexivity. Qed.

Lemma shl_add p n k : shl (shl p k) n = shl p (n + k).
Proof. unfold shl. symmetry. apply Nat.iter_add. Qed.

Lemma digits_shl p n : digits (shl p n) = digits p + Z.of_nat n.
Proof.
  induction n as [|n IH].
  - simpl. lia.
  - rewrite shl_S. unfold digits in *. simpl digits2_pos.
    rewrite Pos2Z.inj_succ, IH. lia.
Qed.

Lemma Zpos_shl p n : Zpos (shl p n) = Zpos p * 2 ^ Z.of_nat n.
Proof.
  induction n as [|n IH].
  - simpl. lia.
  - rewrite shl_S, Pos2Z.inj_xO, IH, Nat2Z.inj_succ, Z.pow_succ_r by lia. lia.
Qed.

Lemma pos_iter_shl p d : Pos.iter xO p d = shl p (Pos.to_nat d).
Proof. apply Pos2Nat.inj_iter. Qed.

Lemma iter_pos_nat {A : Type} (f : A -> A) (p : positive) (x : A) :
  iter_pos f p x = Nat.iter (Pos.to_nat p) f x.
Proof.
  revert x. induction p as [p IH|p IH|]; intros x; cbn [iter_pos].
  - rewrite !IH, Pos2Nat.inj_xI, <- Nat.iter_succ_r, <- Nat.iter_add.
    f_equal. lia.
  - rewrite !IH, Pos2Nat.inj_xO, <- Nat.iter_add. f_equal. lia.
  - reflexivity.
Qed.

Lemma digits_bound p n : 0 <= n -> Zpos p < 2 ^ n -> digits p <= n.
Proof.
  revert n. unfold digits.
  induction p as [p IH|p IH|]; intros n Hn Hlt; simpl digits2_pos.
  - assert (n <> 0) by (intros ->; simpl in Hlt; lia).
    replace n with (Z.succ (n - 1)) in Hlt by lia.
    rewrite Z.pow_succ_r in Hlt by lia.
    specialize (IH (n - 1)). rewrite Pos2Z.inj_succ. lia.
  - assert (n <> 0) by (intros ->; simpl in Hlt; lia).
    replace n with (Z.succ (n - 1)) in Hlt by lia.
    rewrite Z.pow_succ_r in Hlt by lia.
    specialize (IH (n - 1)). rewrite Pos2Z.inj_succ. lia.
  - assert (n <> 0) by (intros ->; simpl in Hlt; lia). lia.
Qed.

Lemma shr_exact p n :
  Nat.iter n shr_1 {| shr_m := Zpos (shl p n); shr_r := false; shr_s := false |}
  = {| shr_m := Zpos p; shr_r := false; shr_s := false |}.
Proof.
  induction n as [|n IH].
  - reflexivity.
  - rewrite Nat.iter_succ_r, shl_S. simpl shr_1. exact IH.
Qed.

Lemma shr_fexp_canonical m e :
  digits m = 53 -> -1074 <= e ->
  shr_fexp 53 1024 (Zpos m) e loc_Exact
  = ({| shr_m := Zpos m; shr_r := false; shr_s := false |}, e).
Proof.
  intros Hm He. unfold shr_fexp, Zdigits2, fexp, emin.
  change (Zpos (digits2_pos m)) with (digits m). rewrite Hm.
  replace (Z.max (53 + e - 53) (3 - 1024 - 53) - e) with 0 by lia.
  reflexivity.
Qed.

Lemma shr_fexp_shifted m e n :
  digits m = 53 -> -1074 <= e + Z.of_nat n ->
  shr_fexp 53 1024 (Zpos (shl m n)) e loc_Exact
  = ({| shr_m := Zpos m; shr_r := false; shr_s := false |}, e + Z.of_nat n).
Proof.
  intros Hm He. destruct n as [|n].
  - simpl shl. rewrite Z.add_0_r in *. apply shr_fexp_canonical; assumption.
  - unfold shr_fexp, Zdigits2, fexp, emin.
    change (Zpos (digits2_pos (shl m (S n)))) with (digits (shl m (S n))).
    rewrite digits_shl, Hm.
    replace (Z.max (53 + Z.of_nat (S n) + e - 53) (3 - 1024 - 53) - e)
      with (Zpos (Pos.of_succ_nat n)) by lia.
    unfold shr. cbn [shr_record_of_loc].
    rewrite iter_pos_nat, SuccNat2Pos.id_succ, shr_exact.
    reflexivity.
Qed.

(** Zeros shifted out of a mantissa of 53 digits lose nothing. *)
Lemma round_aux_shifted s m e n :
  digits m = 53 -> -1074 <= e + Z.of_nat n <= 971 ->
  binary_round_aux 53 1024 s (Zpos (shl m n)) e loc_Exact
  = S754_finite s m (e + Z.of_nat n).
Proof.
  intros Hm He. unfold binary_round_aux.
  rewrite shr_fexp_shifted by (assumption || lia).
  cbn [shr_m loc_of_shr_record round_nearest_even].
  rewrite shr_fexp_canonical by (assumption || lia).
  cbn [shr_m].
  replace (e + Z.of_nat n <=? 1024 - 53) with true
    by (symmetry; apply Z.leb_le; lia).
  reflexivity.
Qed.

Lemma round_aux_canonical s m e :
  digits m = 53 -> -1074 <= e <= 971 ->
  binary_round_aux 53 1024 s (Zpos m) e loc_Exact = S754_finite s m e.
Proof.
  intros Hm He.
  pose proof (round_aux_shifted s m e 0 Hm) as H.
  simpl shl in H. rewrite Z.add_0_r in H. apply H. exact He.
Qed.

Lemma binary_round_whole s q (K : nat) :
  digits q <= 53 ->
  binary_round 53 1024 s (shl q K) (- Z.of_nat K) = canonical s q.
Proof.
  intros Hq. pose proof (digits_pos q) as Hq1.
  unfold binary_round. fold (digits (shl q K)). rewrite digits_shl.
  unfold fexp at 1, emin.
  replace (Z.max (digits q + Z.of_nat K + - Z.of_nat K - 53) (3 - 1024 - 53))
    with (digits q - 53) by lia.
  unfold shl_align.
  destruct (digits q - 53 - - Z.of_nat K) as [|d|d] eqn:Hd.
  - replace (shl q K) with (shl (shl q (Z.to_nat (53 - digits q))) 0).
    2:{ rewrite shl_0. f_equal. lia. }
    rewrite round_aux_shifted.
    + unfold canonical. f_equal. lia.
    + rewrite digits_shl. lia.
    + lia.
  - replace (shl q K)
      with (shl (shl q (Z.to_nat (53 - digits q))) (Pos.to_nat d)).
    2:{ rewrite shl_add. f_equal. lia. }
    rewrite round_aux_shifted.
    + unfold canonical. f_equal. lia.
    + rewrite digits_shl. lia.
    + lia.
  - rewrite pos_iter_shl, shl_add.
    replace (Pos.to_nat d + K)%nat with (Z.to_nat (53 - digits q)) by lia.
    rewrite round_aux_canonical.
    + reflexivity.
    + rewrite digits_shl. lia.
    + lia.
Qed.

Lemma ofZ_pos q : digits q <= 53 -> ofZ (Zpos q) = canonical false q.
Proof. intros Hq. exact (binary_round_whole false q 0 Hq). Qed.

Lemma ofZ_neg q : digits q <= 53 -> ofZ (Zneg q) = canonical true q.
Proof. intros Hq. exact (binary_round_whole true q 0 Hq). Qed.

Lemma whole_digits q : Zpos q < 2 ^ 53 -> digits q <= 53.
Proof. apply digits_bound. lia. Qed.

(** Normalising a whole number that was shifted to the left. *)
Lemma normalize_whole n (K : nat) :
  Z.abs n < 2 ^ 53 ->
  binary_normalize 53 1024 (n * 2 ^ Z.of_nat K) (- Z.of_nat K) false = ofZ n.
Proof.
  intros Hn. destruct n as [|q|q].
  - reflexivity.
  - rewrite <- Zpos_shl. unfold binary_normalize.
    rewrite binary_round_whole, ofZ_pos by (apply whole_digits; lia).
    reflexivity.
  - change (Zneg q) with (- Zpos q) at 1.
    rewrite Z.mul_opp_l, <- Zpos_shl.
    change (- Zpos (shl q K)) with (Zneg (shl q K)). unfold binary_normalize.
    rewrite binary_round_whole, ofZ_neg by (apply whole_digits; lia).
    reflexivity.
Qed.

(** Aligning a canonical mantissa to a smaller exponent. *)
Lemma align_canonical q (K : nat) :
  digits q <= 53 -> 53 - digits q <= Z.of_nat K ->
  fst (shl_align (shl q (Z.to_nat (53 - digits q))) (digits q - 53)
                 (- Z.of_nat K))
  = shl q K.
Proof.
  intros Hq HK. unfold shl_align.
  destruct (- Z.of_nat K - (digits q - 53)) as [|d|d] eqn:Hd; cbn [fst].
  - f_equal. lia.
  - lia.
  - rewrite pos_iter_shl, shl_add. f_equal. lia.
Qed.

Lemma signed_shl s q K :
  cond_Zopp s (Zpos (shl q K)) = signed s q * 2 ^ Z.of_nat K.
Proof.
  unfold signed. rewrite Zpos_shl. destruct s; unfold cond_Zopp; ring.
Qed.

Lemma ofZ_signed s q :
  Zpos q < 2 ^ 53 -> ofZ (signed s q) = canonical s q.
Proof.
  intros Hq. apply whole_digits in Hq.
  destruct s; [apply ofZ_neg | apply ofZ_pos]; exact Hq.
Qed.

Lemma canonical_add sa qa sb qb :
  Zpos qa < 2 ^ 53 -> Zpos qb < 2 ^ 53 ->
  Z.abs (signed sa qa + signed sb qb) < 2 ^ 53 ->
  add (canonical sa qa) (canonical sb qb) = ofZ (signed sa qa + signed sb qb).
Proof.
  intros Ha Hb Hab.
  pose proof (whole_digits qa Ha) as Hda. pose proof (whole_digits qb Hb) as Hdb.
  pose proof (digits_pos qa). pose proof (digits_pos qb).
  unfold add, SFadd, canonical.
  set (K := Z.to_nat (53 - Z.min (digits qa) (digits qb))).
  replace (Z.min (digits qa - 53) (digits qb - 53)) with (- Z.of_nat K) by lia.
  rewrite !align_canonical by lia.
  rewrite !signed_shl, <- Z.mul_add_distr_r.
  apply normalize_whole. exact Hab.
Qed.

Lemma canonical_sub sa qa sb qb :
  Zpos qa < 2 ^ 53 -> Zpos qb < 2 ^ 53 ->
  Z.abs (signed sa qa - signed sb qb) < 2 ^ 53 ->
  sub (canonical sa qa) (canonical sb qb) = ofZ (signed sa qa - signed sb qb).
Proof.
  intros Ha Hb Hab.
  pose proof (whole_digits qa Ha) as Hda. pose proof (whole_digits qb Hb) as Hdb.
  pose proof (digits_pos qa). pose proof (digits_pos qb).
  unfold sub, SFsub, canonical.
  set (K := Z.to_nat (53 - Z.min (digits qa) (digits qb))).
  replace (Z.min (digits qa - 53) (digits qb - 53)) with (- Z.of_nat K) by lia.
  rewrite !align_canonical by lia.
  rewrite !signed_shl, <- Z.mul_sub_distr_r.
  apply normalize_whole. exact Hab.
Qed.

(** Every whole number is zero or a signed positive. *)
Lemma whole_cases n :
  n = 0 \/ exists s q, n = signed s q /\ Zpos q = Z.abs n.
Proof.
  destruct n as [|q|q]; [left; reflexivity | right | right].
  - exists false, q. split; reflexivity.
  - exists true, q. split; reflexivity.
Qed.

(** Doubles add and subtract whole numbers below 2^53 exactly. *)
Lemma add_whole a b :
  Z.abs a < 2 ^ 53 -> Z.abs b < 2 ^ 53 -> Z.abs (a + b) < 2 ^ 53 ->
  add (ofZ a) (ofZ b) = ofZ (a + b).
Proof.
  intros Ha Hb Hab.
  destruct (whole_cases a) as [->|(sa & qa & -> & Hqa)];
    destruct (whole_cases b) as [->|(sb & qb & -> & Hqb)].
  - reflexivity.
  - rewrite Z.add_0_l, ofZ_signed by lia. reflexivity.
  - rewrite Z.add_0_r, ofZ_signed by lia. reflexivity.
  - rewrite (ofZ_signed sa qa), (ofZ_signed sb qb) by lia.
    apply canonical_add; lia.
Qed.

Lemma sub_whole a b :
  Z.abs a < 2 ^ 53 -> Z.abs b < 2 ^ 53 -> Z.abs (a - b) < 2 ^ 53 ->
  sub (ofZ a) (ofZ b) = ofZ (a - b).
Proof.
  intros Ha Hb Hab.
  destruct (whole_cases a) as [->|(sa & qa & -> & Hqa)];
    destruct (whole_cases b) as [->|(sb & qb & -> & Hqb)].
  - reflexivity.
  - rewrite Z.sub_0_l.
    replace (- signed sb qb) with (signed (negb sb) qb)
      by (destruct sb; reflexivity).
    rewrite !ofZ_signed by lia. reflexivity.
  - rewrite Z.sub_0_r, ofZ_signed by lia. reflexivity.
  - rewrite (ofZ_signed sa qa), (ofZ_signed sb qb) by lia.
    apply canonical_sub; lia.
Qed.

Lemma nonNegative_whole n :
  Z.abs n < 2 ^ 53 -> nonNegative (ofZ n) = (0 <=? n).
Proof.
  intros Hn.
  destruct (whole_cases n) as [->|(s & q & -> & Hq)]; [reflexivity|].
  rewrite ofZ_signed by lia. destruct s; reflexivity.
Qed.

Lemma eqb_whole n : Z.abs n < 2 ^ 53 -> eqb (ofZ n) (ofZ n) = true.
Proof.
  intros Hn.
  destruct (whole_cases n) as [->|(s & q & -> & Hq)]; [reflexivity|].
  rewrite ofZ_signed by lia.
  unfold eqb, SFeqb, SFcompare, canonical.
  rewrite Z.compare_refl, Pos.compare_cont_refl. destruct s; reflexivity.
Qed.

End DoubleFacts.

(** * The round ledger *)

(** Entering the Purchasing phase establishes the starting ledger,
    whether or not the rendering of the display completes. *)
Lemma purchasing_entry_ledger (g : Game) :
  let g' := exec (BaseGameService._renderGameState Purchasing) g in
  spendAvailable g' = moneyPerTurn g' /\ spendAllocated g' = 0.
Proof.
  unfold BaseGameService._renderGameState, BaseGameService.renderGameStateWith,
    renderSimulateButton, unembedded.
  run_method.
  repeat (match goal with
          | |- context [match rendering ?a ?b with _ => _ end] =>
              destruct (rendering a b); simpl
          end);
    split; reflexivity.
Qed.

(** ** Whole amounts: the two embeddings of the ledger agree *)

Lemma stage_whole (event : Event) (g : Game) :
  Z.abs (spendAvailable g) + Z.abs (target_value event) < 2 ^ 53 ->
  Z.abs (spendAllocated g) + Z.abs (target_value event) < 2 ^ 53 ->
  Doubles._handleClickImplementControl (clickOf event) (ledgerOf g)
  = ledgerOf (exec (BaseGameService._handleClickImplementControl event) g).
Proof.
  intros Ha Hb.
  destruct (stage_effect event g) as (_ & _ & _ & _ & Hyes & Hno).
  unfold Doubles._handleClickImplementControl, ledgerOf, clickOf.
  cbn [Doubles.spendAvailable Doubles.spendAllocated
       Doubles.controlsToImplement Doubles.value Doubles.controlId].
  rewrite DoubleFacts.sub_whole, DoubleFacts.nonNegative_whole by lia.
  destruct (Z.leb_spec 0 (spendAvailable g - target_value event)) as [Hle|Hlt].
  - destruct (Hyes Hle) as (-> & -> & ->).
    rewrite DoubleFacts.add_whole by lia. reflexivity.
  - destruct (Hno Hlt) as (-> & -> & ->). reflexivity.
Qed.

Lemma unstage_whole (event : Event) (g : Game) :
  Z.abs (spendAvailable g) + Z.abs (target_value event) < 2 ^ 53 ->
  Z.abs (spendAllocated g) + Z.abs (target_value event) < 2 ^ 53 ->
  Doubles._handleClickRemoveControl (clickOf event) (ledgerOf g)
  = ledgerOf (exec (BaseGameService._handleClickRemoveControl event) g).
Proof.
  intros Ha Hb.
  destruct (unstage_effect event g) as (_ & _ & _ & _ & Hav & Hal & Hst).
  unfold Doubles._handleClickRemoveControl, ledgerOf, clickOf.
  cbn [Doubles.spendAvailable Doubles.spendAllocated
       Doubles.controlsToImplement Doubles.value Doubles.controlId].
  cbv zeta in Hav, Hal, Hst. rewrite Hav, Hal, Hst.
  rewrite DoubleFacts.add_whole, DoubleFacts.sub_whole by lia. reflexivity.
Qed.

Lemma perform_whole (op : LedgerOp) (g : Game) :
  Z.abs (spendAvailable g) + Z.abs (target_value (opEvent op)) < 2 ^ 53 ->
  Z.abs (spendAllocated g) + Z.abs (target_value (opEvent op)) < 2 ^ 53 ->
  Doubles.perform (opOf op) (ledgerOf g) = ledgerOf (exec (perform op) g).
Proof.
  destruct op as [event|event]; [apply stage_whole | apply unstage_whole].
Qed.

(** A click moves each figure by at most its value. *)
Lemma perform_bounds (op : LedgerOp) (g : Game) :
  Z.abs (spendAvailable (exec (perform op) g))
  <= Z.abs (spendAvailable g) + Z.abs (target_value (opEvent op)) /\
  Z.abs (spendAllocated (exec (perform op) g))
  <= Z.abs (spendAllocated g) + Z.abs (target_value (opEvent op)).
Proof.
  destruct op as [event|event]; simpl.
  - destruct (stage_effect event g) as (_ & _ & _ & _ & Hyes & Hno).
    destruct (Z_lt_le_dec (spendAvailable g - target_value event) 0) as [Hlt|Hle].
    + destruct (Hno Hlt) as (-> & -> & _). lia.
    + destruct (Hyes Hle) as (-> & -> & _). lia.
  - destruct (unstage_effect event g) as (_ & _ & _ & _ & -> & -> & _). lia.
Qed.

Lemma amounts_nonneg (ops : list LedgerOp) : 0 <= amounts ops.
Proof. induction ops as [|op ops IH]; simpl; lia. Qed.

Lemma run_bounds (ops : list LedgerOp) (g : Game) :
  Forall (fun g' =>
            Z.abs (spendAvailable g') <= Z.abs (spendAvailable g) + amounts ops /\
            Z.abs (spendAllocated g') <= Z.abs (spendAllocated g) + amounts ops)
         (run ops g).
Proof.
  revert g. induction ops as [|op ops IH]; intros g; simpl; [constructor|].
  pose proof (perform_bounds op g) as [Ha Hb].
  pose proof (amounts_nonneg ops) as Hops.
  constructor; [lia|].
  eapply Forall_impl; [apply IH|]. simpl. intros g' [Ha' Hb']. lia.
Qed.

(** On whole amounts below 2^53 the binary64 ledger is, after every
    call, the ledger of the service object: the arithmetic of the
    handlers is exact there. *)
Lemma doubles_agree_on_whole_amounts (ops : list LedgerOp) (g : Game) :
  Z.abs (spendAvailable g) + amounts ops < 2 ^ 53 ->
  Z.abs (spendAllocated g) + amounts ops < 2 ^ 53 ->
  Doubles.run (opOf <$> ops) (ledgerOf g) = ledgerOf <$> run ops g.
Proof.
  revert g. induction ops as [|op ops IH]; intros g Ha Hb; [reflexivity|].
  simpl in Ha, Hb. pose proof (amounts_nonneg ops) as Hops.
  pose proof (perform_bounds op g) as [Ha' Hb'].
  cbn [fmap list_fmap Doubles.run run].
  rewrite perform_whole by lia.
  f_equal. apply IH; lia.
Qed.

(** C1, as the specification states it, fails on the handlers: they
    compute in binary64.  With an allowance of 1000 and controls priced
    at 199.99, 349.95 and 120.10, all three stage clicks are accepted
    and the two figures then add up to 1000.0000000000001. *)
Lemma ledger_drifts_with_pence :
  Doubles.ledgerBalanced (Doubles.ofZ 1000) penceStart = true /\
  Doubles.controlsToImplement
    (default penceStart (last (Doubles.run penceOps penceStart)))
  = [Some "c1"; Some "c2"; Some "c3"] /\
  Doubles.ledgerBalanced (Doubles.ofZ 1000)
    (default penceStart (last (Doubles.run penceOps penceStart)))
  = false /\
  Doubles.add
    (Doubles.spendAvailable
       (default penceStart (last (Doubles.run penceOps penceStart))))
    (Doubles.spendAllocated
       (default penceStart (last (Doubles.run penceOps penceStart))))
  = SpecFloat.S754_finite false 8796093022208001 (-43).
Proof. repeat split; vm_compute; reflexivity. Qed.

(** C1, amended.  When the allowance and the value of every click are
    whole numbers whose absolute values add up to less than 2^53, then
    starting from [spendAvailable = moneyPerTurn] and
    [spendAllocated = 0], after every call of every sequence of stage
    and de-stage clicks the binary64 figures satisfy
    [spendAvailable + spendAllocated == moneyPerTurn]. *)
Theorem ledger_balanced_after_every_call (ops : list LedgerOp) (g : Game) :
  spendAvailable g = moneyPerTurn g ->
  spendAllocated g = 0 ->
  Z.abs (moneyPerTurn g) + amounts ops < 2 ^ 53 ->
  Forall (fun l => Doubles.ledgerBalanced (Doubles.ofZ (moneyPerTurn g)) l = true)
         (Doubles.run (opOf <$> ops) (ledgerOf g)).
Proof.
  intros Havail Halloc Hbound.
  pose proof (amounts_nonneg ops) as Hops.
  rewrite doubles_agree_on_whole_amounts by lia.
  apply Forall_fmap.
  assert (Hbalanced : ledgerBalanced g) by (unfold ledgerBalanced; lia).
  pose proof (run_keeps_balance ops g Hbalanced) as Hsum.
  pose proof (run_bounds ops g) as Hsize.
  assert (Hmoney : Forall (fun g' => moneyPerTurn g' = moneyPerTurn g) (run ops g)).
  { clear. revert g. induction ops as [|op ops IH]; intros g; simpl;
      [constructor|].
    destruct (perform_keeps_balance op g) as [Hm _].
    constructor; [exact Hm|].
    eapply Forall_impl; [apply IH|]. simpl. intros g' Hg'. congruence. }
  rewrite Forall_forall in *. intros g' Hg'.
  specialize (Hsum g' Hg'). specialize (Hsize g' Hg') as [Ha Hb].
  specialize (Hmoney g' Hg'). unfold ledgerBalanced in Hsum.
  unfold Doubles.ledgerBalanced, ledgerOf, compose.
  cbn [Doubles.spendAvailable Doubles.spendAllocated].
  rewrite DoubleFacts.add_whole by lia.
  rewrite Hsum, Hmoney. apply DoubleFacts.eqb_whole. lia.
Qed.

Lemma ledger_balanced_after_every_call_witness :
  spendAvailable roundStart = moneyPerTurn roundStart /\
  spendAllocated roundStart = 0 /\
  Z.abs (moneyPerTurn roundStart) + amounts sampleOps < 2 ^ 53 /\
  Forall (fun l => Doubles.ledgerBalanced
                     (Doubles.ofZ (moneyPerTurn roundStart)) l = true)
         (Doubles.run (opOf <$> sampleOps) (ledgerOf roundStart)).
Proof.
  split; [reflexivity|].
  split; [reflexivity|].
  split; [vm_compute; reflexivity|].
  apply (ledger_balanced_after_every_call sampleOps roundStart);
    [reflexivity | reflexivity | vm_compute; reflexivity].
Defined.

(** The scenario of the specification: allowance 1000, stage a control
    costing 400, then try one costing 700. *)
Example stage_400_then_700 :
  let g1 := exec (BaseGameService._handleClickImplementControl
                    (clickControl firewall)) roundStart in
  let g2 := exec (BaseGameService._handleClickImplementControl
                    (clickControl backups)) g1 in
  (spendAvailable g1, spendAllocated g1, controlsToImplement g1)
    = (600, 400, [Some "c1"]) /\
  (spendAvailable g2, spendAllocated g2, controlsToImplement g2)
    = (600, 400, [Some "c1"]).
Proof. split; reflexivity. Qed.

(** In the available-controls modal the stage handler always completes
    normally, whatever the cost. *)
Lemma stage_completes_in_new_controls (event : Event) (g : Game) :
  or_default (target_modal_id event) "new-controls" = "new-controls" ->
  completion (BaseGameService._handleClickImplementControl event) g = Normal tt.
Proof.
  intros Hmodal.
  unfold BaseGameService._handleClickImplementControl,
    BaseGameService.rerenderModal,
    BaseGameService._handleClickViewAvailableControls,
    _handleClickViewAvailableControls_cooperative,
    renderAvailableControlsModal, _addPoll.
  run_method. rewrite Hmodal.
  destruct (decide (0 <= spendAvailable g - target_value event)); simpl;
    destruct (_gameType g); simpl;
    repeat (match goal with
            | |- context [match ?x with _ => _ end] => destruct x; simpl
            end);
    reflexivity.
Qed.

(** C4, as the specification states it, fails on the handler: a stage
    click that costs more than the available money raises no error; the
    handler completes normally. *)
Lemma over_budget_stage_raises_no_error :
  spendAvailable afterFirewall < target_value (clickControl backups) /\
  completion (BaseGameService._handleClickImplementControl (clickControl backups))
             afterFirewall
  = Normal tt /\
  forall exn : string,
    completion (BaseGameService._handleClickImplementControl (clickControl backups))
               afterFirewall
    ≠ Thrown exn.
Proof.
  split; [reflexivity|].
  split; [reflexivity|].
  intros exn. discriminate.
Qed.

(** C4, amended.  A stage click whose cost exceeds the available money is
    rejected without an error: the available and allocated figures and
    the staged list keep their values, the handler completes normally
    (in the available-controls modal), and the modal shows the disabled
    "Insufficient Funds" button for an unstaged control of that cost. *)
Theorem stage_over_budget_rejected (event : Event) (g : Game) :
  spendAvailable g < target_value event ->
  let g' := exec (BaseGameService._handleClickImplementControl event) g in
  spendAvailable g' = spendAvailable g /\
  spendAllocated g' = spendAllocated g /\
  controlsToImplement g' = controlsToImplement g /\
  (or_default (target_modal_id event) "new-controls" = "new-controls" ->
   completion (BaseGameService._handleClickImplementControl event) g
   = Normal tt) /\
  (forall control : Control,
     control_cost control = target_value event ->
     Some (control_id control) ∉ controlsToImplement g ->
     controlButton control (controlsToImplement g') (spendAvailable g')
     = InsufficientFundsButton).
Proof.
  intros Hcost g'.
  destruct (stage_effect event g) as (_ & _ & _ & _ & _ & Hno).
  destruct Hno as (Ha & Hb & Hc); [lia|].
  fold g' in Ha, Hb, Hc.
  split; [exact Ha|]. split; [exact Hb|]. split; [exact Hc|].
  split; [apply stage_completes_in_new_controls|].
  intros control Hc1 Hc2. unfold controlButton.
  rewrite Ha, Hc.
  destruct (decide (Some (control_id control) ∈ controlsToImplement g));
    [contradiction|].
  destruct (decide (control_cost control <= spendAvailable g)); [lia|].
  reflexivity.
Qed.

Lemma stage_over_budget_rejected_witness :
  spendAvailable afterFirewall < target_value (clickControl backups) /\
  controlsToImplement
    (exec (BaseGameService._handleClickImplementControl (clickControl backups))
          afterFirewall)
  = controlsToImplement afterFirewall.
Proof.
  split; [reflexivity|].
  apply (stage_over_budget_rejected (clickControl backups) afterFirewall).
  reflexivity.
Defined.

(** C6, as the specification states it, fails on the handlers: with
    800.01 available and 199.99 allocated, staging a control that costs
    56.02 and de-staging it at once leaves 199.98999999999998
    allocated. *)
Lemma stage_then_unstage_drifts_with_pence :
  Doubles.nonNegative
    (Doubles.sub (Doubles.spendAvailable penceLedger)
                 (Doubles.value (penceClick "c1" 5602))) = true /\
  (Some "c1" ∉ Doubles.controlsToImplement penceLedger) /\
  Doubles.controlsToImplement
    (Doubles._handleClickRemoveControl (penceClick "c1" 5602)
       (Doubles._handleClickImplementControl (penceClick "c1" 5602) penceLedger))
  = Doubles.controlsToImplement penceLedger /\
  Doubles.eqb
    (Doubles.spendAllocated
       (Doubles._handleClickRemoveControl (penceClick "c1" 5602)
          (Doubles._handleClickImplementControl (penceClick "c1" 5602)
             penceLedger)))
    (Doubles.spendAllocated penceLedger) = false /\
  Doubles.spendAllocated penceLedger
  = SpecFloat.S754_finite false 7036522574045512 (-45) /\
  Doubles.spendAllocated
    (Doubles._handleClickRemoveControl (penceClick "c1" 5602)
       (Doubles._handleClickImplementControl (penceClick "c1" 5602) penceLedger))
  = SpecFloat.S754_finite false 7036522574045511 (-45).
Proof.
  split; [vm_compute; reflexivity|].
  split; [apply not_elem_of_nil|].
  repeat split; vm_compute; reflexivity.
Qed.

(** C6, amended.  For whole amounts below 2^53 and a stageable click
    (cost within the available money, id not yet staged), staging and
    immediately de-staging restores the binary64 figures
    [spendAvailable] and [spendAllocated] exactly, and the staged list
    as well. *)
Theorem stage_then_unstage_restores (event : Event) (g : Game) :
  Z.abs (spendAvailable g) + Z.abs (target_value event) < 2 ^ 53 ->
  Z.abs (spendAllocated g) + Z.abs (target_value event) < 2 ^ 53 ->
  target_value event <= spendAvailable g ->
  controlIdOf event ∉ controlsToImplement g ->
  Doubles._handleClickRemoveControl (clickOf event)
    (Doubles._handleClickImplementControl (clickOf event) (ledgerOf g))
  = ledgerOf g.
Proof.
  intros Ha Hb Hcost Hfresh.
  unfold Doubles._handleClickImplementControl, Doubles._handleClickRemoveControl,
    ledgerOf, clickOf.
  cbn [Doubles.spendAvailable Doubles.spendAllocated
       Doubles.controlsToImplement Doubles.value Doubles.controlId].
  rewrite DoubleFacts.sub_whole, DoubleFacts.nonNegative_whole by lia.
  replace (0 <=? spendAvailable g - target_value event) with true
    by (symmetry; apply Z.leb_le; lia).
  cbn [Doubles.spendAvailable Doubles.spendAllocated
       Doubles.controlsToImplement].
  rewrite (DoubleFacts.add_whole (spendAllocated g)) by lia.
  rewrite DoubleFacts.add_whole, DoubleFacts.sub_whole by lia.
  f_equal.
  - f_equal. lia.
  - f_equal. lia.
  - rewrite filter_app, filter_cons_False, filter_nil, app_nil_r
      by (intros Hne; apply Hne; reflexivity).
    apply filter_other_absent, Hfresh.
Qed.

Lemma stage_then_unstage_restores_witness :
  Z.abs (spendAvailable roundStart) + Z.abs (target_value (clickControl backups))
  < 2 ^ 53 /\
  Z.abs (spendAllocated roundStart) + Z.abs (target_value (clickControl backups))
  < 2 ^ 53 /\
  target_value (clickControl backups) <= spendAvailable roundStart /\
  (controlIdOf (clickControl backups) ∉ controlsToImplement roundStart) /\
  Doubles._handleClickRemoveControl (clickOf (clickControl backups))
    (Doubles._handleClickImplementControl (clickOf (clickControl backups))
       (ledgerOf roundStart))
  = ledgerOf roundStart.
Proof.
  assert (Hfresh : controlIdOf (clickControl backups)
                   ∉ controlsToImplement roundStart).
  { vm_compute. apply not_elem_of_nil. }
  split; [vm_compute; reflexivity|].
  split; [vm_compute; reflexivity|].
  split; [vm_compute; discriminate|].
  split; [exact Hfresh|].
  apply (stage_then_unstage_restores (clickControl backups) roundStart);
    [vm_compute; reflexivity | vm_compute; reflexivity
    | vm_compute; discriminate | exact Hfresh].
Defined.


(** A control whose id contains a dash is staged under the part of its
    id before the dash: its button stays "Implement" and a second click
    on it stages the same identifier again. *)
Example dashed_id_staged_twice :
  implementOffered dashedGame (clickControl gateway) = true /\
  controlButton gateway
    (controlsToImplement
       (exec (BaseGameService._handleClickImplementControl (clickControl gateway))
             dashedGame))
    (spendAvailable
       (exec (BaseGameService._handleClickImplementControl (clickControl gateway))
             dashedGame))
  = ImplementButton /\
  eachOffered [clickControl gateway; clickControl gateway] dashedGame = true /\
  controlsToImplement
    (stageAll [clickControl gateway; clickControl gateway] dashedGame)
  = [Some "a"; Some "a"].
Proof. repeat split; vm_compute; reflexivity. Qed.




(** * Phase transitions *)




Example placingFirewall_state :
  state placingFirewall = Placing /\
  _placingControl placingFirewall = Some firewall /\
  controlsToImplement placingFirewall = [Some "c1"].
Proof. repeat split. Qed.

(** C9, as the specification states it, fails on the handler: after a
    click on the wrong asset the placement candidate is still set; it is
    not cleared. *)
Lemma wrong_asset_keeps_candidate :
  control_asset firewall ≠ parent_asset_id (clickAsset "laptop") /\
  _placingControl
    (exec (BaseGameService._handleClickAssetIcon ∅ (clickAsset "laptop"))
          placingFirewall)
  = Some firewall /\
  exec (BaseGameService._handleClickAssetIcon ∅ (clickAsset "laptop"))
       placingFirewall
  ≠ set_effects (effects placingFirewall ++ [WindowAlert "Incorrect! Please try again."])
      (set_placingControl None placingFirewall).
Proof.
  split; [discriminate|].
  split; [reflexivity|].
  intros Heq. apply (f_equal _placingControl) in Heq.
  vm_compute in Heq. discriminate.
Qed.

(** C9, amended.  In the Placing phase a click on the wrong asset changes
    no state at all: the phase, the staged list, the ledger figures and
    the placement candidate keep their values; the handler only alerts
    the player to try again. *)
Theorem wrong_asset_changes_nothing (AssetLocations : gmap string Asset)
    (event : Event) (placing : Control) (g : Game) :
  state g = Placing ->
  _placingControl g = Some placing ->
  control_asset placing ≠ parent_asset_id event ->
  let g' := exec (BaseGameService._handleClickAssetIcon AssetLocations event) g in
  completion (BaseGameService._handleClickAssetIcon AssetLocations event) g
  = Normal tt /\
  state g' = Placing /\
  controlsToImplement g' = controlsToImplement g /\
  spendAvailable g' = spendAvailable g /\
  spendAllocated g' = spendAllocated g /\
  _placingControl g' = Some placing /\
  effects g' = effects g ++ [WindowAlert "Incorrect! Please try again."].
Proof.
  intros Hstate Hplacing Hasset.
  unfold BaseGameService._handleClickAssetIcon.
  run_method.
  rewrite Hstate, Hplacing.
  destruct (decide (control_asset placing = parent_asset_id event));
    [contradiction|].
  simpl. repeat split; assumption.
Qed.

Lemma wrong_asset_changes_nothing_witness :
  state placingFirewall = Placing /\
  _placingControl placingFirewall = Some firewall /\
  control_asset firewall ≠ parent_asset_id (clickAsset "laptop") /\
  controlsToImplement
    (exec (BaseGameService._handleClickAssetIcon ∅ (clickAsset "laptop"))
          placingFirewall)
  = controlsToImplement placingFirewall.
Proof.
  split; [reflexivity|].
  split; [reflexivity|].
  split; [discriminate|].
  apply (wrong_asset_changes_nothing ∅ (clickAsset "laptop") firewall
           placingFirewall); [reflexivity | reflexivity | discriminate].
Defined.

(** The right asset, for comparison: the control is implemented, the
    candidate is cleared and, nothing being left to place, the turn is
    simulated. *)
Example right_asset_places_control :
  controlsToImplement
    (exec (BaseGameService._handleClickAssetIcon ∅ (clickAsset "server"))
          placingFirewall) = [] /\
  _placingControl
    (exec (BaseGameService._handleClickAssetIcon ∅ (clickAsset "server"))
          placingFirewall) = None /\
  drop (length (effects placingFirewall))
    (effects (exec (BaseGameService._handleClickAssetIcon ∅ (clickAsset "server"))
                   placingFirewall))
  = [Ajax (PatchAddControl "c1"); SetBannerHtml "Placing"; WindowAlert "Correct!";
     RenderGameStateBanner Simulating; RenderSimulateButton Simulating None;
     RenderSpendFigures 600 400 false; Ajax (GetOrganisationDetails "org1");
     LocalStorageSetItem "organisation"; Ajax (GetNewControlsOf "org1");
     RenderModalLoading "turn-results"; ToggleModal "turn-results";
     Ajax PostSimulateTurn].
Proof. repeat split. Qed.

(** * Majority voting *)

Lemma _getVoteThreshold_half (g : Game) :
  _getVoteThreshold g
  = (Z.of_nat (length (org_members (organisation g))) + 1) / 2.
Proof.
  unfold _getVoteThreshold.
  generalize (Z.of_nat (length (org_members (organisation g)))). intros n.
  unfold Qround.Qceiling, Qround.Qfloor, QArith_base.Qdiv, QArith_base.Qmult,
    QArith_base.Qinv, QArith_base.Qopp, QArith_base.inject_Z. simpl.
  change (Z.pos (1 * 2)) with 2.
  Z.div_mod_to_equations. lia.
Qed.

(** C7.  With [n >= 1] members the vote threshold is the ceiling of
    [n / 2], the least integer [t] with [n <= 2 * t]; five members give
    3; and a tally passes the gate of the vote handlers exactly when it
    reaches the threshold. *)
Theorem majority_threshold (g : Game) :
  1 <= Z.of_nat (length (org_members (organisation g))) ->
  (Z.of_nat (length (org_members (organisation g))) <= 2 * _getVoteThreshold g /\
   forall t : Z,
     Z.of_nat (length (org_members (organisation g))) <= 2 * t ->
     _getVoteThreshold g <= t) /\
  (length (org_members (organisation g)) = 5%nat -> _getVoteThreshold g = 3) /\
  (forall tally : Z,
     reachesThreshold g tally = true <-> _getVoteThreshold g <= tally).
Proof.
  intros Hn. rewrite _getVoteThreshold_half.
  split; [split|split].
  - Z.div_mod_to_equations. lia.
  - intros t Ht. Z.div_mod_to_equations. lia.
  - intros ->. reflexivity.
  - intros tally. unfold reachesThreshold.
    rewrite bool_decide_eq_true, _getVoteThreshold_half. reflexivity.
Qed.

Lemma majority_threshold_witness :
  1 <= Z.of_nat (length (org_members (organisation (sampleGame Cooperative)))) /\
  (forall tally : Z,
     reachesThreshold (sampleGame Cooperative) tally = true
     <-> _getVoteThreshold (sampleGame Cooperative) <= tally).
Proof.
  split; [vm_compute; discriminate|].
  apply (majority_threshold (sampleGame Cooperative)).
  vm_compute. discriminate.
Defined.

Example threshold_of_three_members :
  _getVoteThreshold (sampleGame Cooperative) = 2.
Proof. reflexivity. Qed.

Lemma delete_insert_same {A : Type} (l : list A) (i : nat) (x : A) :
  delete i (<[i := x]> l) = delete i l.
Proof.
  revert i. induction l as [|y l IH]; intros [|i]; simpl; try reflexivity.
  f_equal. apply IH.
Qed.

Lemma votersOf_found (votes : list Votes) (voteId : string) (i : nat)
    (vote : Votes) :
  list_find (fun v => vote_id v = voteId) votes = Some (i, vote) ->
  votersOf votes voteId = vote_votes vote.
Proof. unfold votersOf. intros ->. reflexivity. Qed.

(** With one record per action, deleting the record of an action leaves
    no record of it. *)
Lemma votersOf_deleted (votes : list Votes) (i : nat) (vote : Votes) :
  NoDup (vote_id <$> votes) ->
  votes !! i = Some vote ->
  votersOf (delete i votes) (vote_id vote) = [].
Proof.
  intros Hnodup Hi. unfold votersOf.
  destruct (list_find _ (delete i votes)) as [[j other]|] eqn:Hfind;
    [|reflexivity].
  exfalso.
  apply list_find_Some in Hfind as (Hj & Hid & _).
  rewrite list_lookup_delete in Hj.
  assert (Hmapi : (vote_id <$> votes) !! i = Some (vote_id vote))
    by (rewrite list_lookup_fmap, Hi; reflexivity).
  destruct (decide (j < i)%nat) as [Hlt|Hge].
  - assert ((vote_id <$> votes) !! j = Some (vote_id vote)) as Hmapj
      by (rewrite list_lookup_fmap, Hj; simpl; congruence).
    pose proof (NoDup_lookup _ _ _ _ Hnodup Hmapi Hmapj). lia.
  - assert ((vote_id <$> votes) !! S j = Some (vote_id vote)) as Hmapj
      by (rewrite list_lookup_fmap, Hj; simpl; congruence).
    pose proof (NoDup_lookup _ _ _ _ Hnodup Hmapi Hmapj). lia.
Qed.

(** Replacing the voters of the record found for an action keeps it the
    record found for that action. *)
Lemma votersOf_replaced (votes : list Votes) (voteId : string) (i : nat)
    (vote : Votes) (voters : list string) :
  list_find (fun v => vote_id v = voteId) votes = Some (i, vote) ->
  votersOf (<[i := {| vote_id := vote_id vote; vote_votes := voters |}]> votes)
           voteId
  = voters.
Proof.
  intros Hfind.
  apply list_find_Some in Hfind as (Hi & Hid & Hfirst).
  unfold votersOf.
  rewrite (proj2 (list_find_Some (fun v => vote_id v = voteId) _ i
                    {| vote_id := vote_id vote; vote_votes := voters |}));
    [reflexivity|].
  split; [|split].
  - apply list_lookup_insert_eq. eapply lookup_lt_Some, Hi.
  - exact Hid.
  - intros j y Hj Hlt.
    rewrite list_lookup_insert_ne in Hj by lia.
    eapply Hfirst; eassumption.
Qed.

(** One record per action is an invariant of [_toggleVote]. *)
Lemma toggleVote_one_record_per_action (voteId : string) (g : Game) :
  NoDup (vote_id <$> _votes g) ->
  NoDup (vote_id <$> _votes (exec (_toggleVote voteId) g)).
Proof.
  intros Hnodup.
  unfold _toggleVote, _updateVotes, reachesThreshold.
  run_method.
  destruct (list_find (fun vote => vote_id vote = voteId) (_votes g))
    as [[voteIndex vote]|] eqn:Hfind; simpl.
  - apply list_find_Some in Hfind as (Hi & Hid & _).
    assert (Hsame : forall voters : list string,
              vote_id <$> <[voteIndex := {| vote_id := vote_id vote;
                                            vote_votes := voters |}]> (_votes g)
              = vote_id <$> _votes g).
    { intros voters. rewrite list_fmap_insert. simpl.
      apply list_insert_id. rewrite list_lookup_fmap, Hi. reflexivity. }
    case_bool_decide; simpl; [exact Hnodup|].
    destruct (list_find (fun voterId => voterId = _userId g) (vote_votes vote));
      simpl.
    + destruct (filter (fun voterId => voterId ≠ _userId g) (vote_votes vote))
        as [|voter voters]; simpl.
      * rewrite delete_insert_same, list_fmap_delete.
        eapply sublist_NoDup; [exact Hnodup | apply sublist_delete].
      * rewrite Hsame. exact Hnodup.
    + rewrite Hsame. exact Hnodup.
  - apply list_find_None in Hfind. rewrite Forall_forall in Hfind.
    rewrite fmap_app. apply NoDup_app. split; [exact Hnodup|]. split.
    + intros id Hid Hnew. simpl in Hnew.
      apply list_elem_of_singleton in Hnew. subst id.
      apply list_elem_of_fmap in Hid as (vote & Hid & Hvote).
      apply (Hfind vote Hvote). congruence.
    + apply NoDup_singleton.
Qed.

(** C3.  Once the tally of an action has reached the threshold, a
    further toggle by a recorded voter leaves the votes as they are: the
    voter stays recorded.  Below the threshold the same toggle revokes
    the vote (the vote list holding one record per action). *)
Theorem passed_vote_is_locked (voteId : string) (voteIndex : nat)
    (vote : Votes) (g : Game) :
  list_find (fun v => vote_id v = voteId) (_votes g) = Some (voteIndex, vote) ->
  _userId g ∈ vote_votes vote ->
  let g' := exec (_toggleVote voteId) g in
  (_getVoteThreshold g <= Z.of_nat (length (vote_votes vote)) ->
   _votes g' = _votes g /\ _userId g ∈ votersOf (_votes g') voteId) /\
  (Z.of_nat (length (vote_votes vote)) < _getVoteThreshold g ->
   NoDup (vote_id <$> _votes g) ->
   _userId g ∉ votersOf (_votes g') voteId).
Proof.
  intros Hfind Hvoted.
  unfold _toggleVote, _updateVotes, reachesThreshold.
  run_method. rewrite Hfind.
  split.
  - intros Hpassed.
    rewrite bool_decide_eq_true_2 by exact Hpassed. simpl.
    split; [reflexivity|].
    rewrite (votersOf_found _ _ _ _ Hfind). exact Hvoted.
  - intros Hbelow Hnodup.
    rewrite bool_decide_eq_false_2 by lia. simpl.
    destruct (list_find (fun voterId => voterId = _userId g) (vote_votes vote))
      as [found|] eqn:Hme.
    + destruct (filter (fun voterId => voterId ≠ _userId g) (vote_votes vote))
        as [|voter voters] eqn:Hremaining; simpl.
      * rewrite delete_insert_same.
        pose proof Hfind as Hfound.
        apply list_find_Some in Hfound as (Hi & Hid & _).
        rewrite <- Hid, (votersOf_deleted _ _ _ Hnodup Hi).
        apply not_elem_of_nil.
      * rewrite (votersOf_replaced _ _ _ _ (voter :: voters) Hfind).
        rewrite <- Hremaining. apply filter_other_removes.
    + apply list_find_None in Hme.
      rewrite Forall_forall in Hme.
      exfalso. eapply Hme; [exact Hvoted | reflexivity].
Qed.

Lemma passed_vote_is_locked_witness :
  list_find (fun v => vote_id v = "simulate-turn")
    (_votes (cooperativeGame
               [{| vote_id := "simulate-turn"; vote_votes := ["u2"; "u3"; "u1"] |}]))
  = Some (0%nat, {| vote_id := "simulate-turn"; vote_votes := ["u2"; "u3"; "u1"] |}) /\
  _votes (exec (_toggleVote "simulate-turn")
            (cooperativeGame
               [{| vote_id := "simulate-turn"; vote_votes := ["u2"; "u3"; "u1"] |}]))
  = [{| vote_id := "simulate-turn"; vote_votes := ["u2"; "u3"; "u1"] |}] /\
  list_find (fun v => vote_id v = "simulate-turn")
    (_votes (cooperativeGame
               [{| vote_id := "simulate-turn"; vote_votes := ["u2"; "u1"] |}]))
  = Some (0%nat, {| vote_id := "simulate-turn"; vote_votes := ["u2"; "u1"] |}) /\
  "u1" ∉ votersOf
           (_votes (exec (_toggleVote "simulate-turn")
                      (cooperativeGame
                         [{| vote_id := "simulate-turn";
                             vote_votes := ["u2"; "u1"] |}])))
           "simulate-turn".
Proof.
  split; [reflexivity|].
  split.
  { apply (passed_vote_is_locked "simulate-turn" 0
             {| vote_id := "simulate-turn"; vote_votes := ["u2"; "u3"; "u1"] |}
             (cooperativeGame
                [{| vote_id := "simulate-turn";
                    vote_votes := ["u2"; "u3"; "u1"] |}])).
    - reflexivity.
    - vm_compute. do 2 apply list_elem_of_further. apply list_elem_of_here.
    - vm_compute. discriminate. }
  split; [reflexivity|].
  apply (passed_vote_is_locked "simulate-turn" 0
           {| vote_id := "simulate-turn"; vote_votes := ["u2"; "u1"] |}
           (cooperativeGame
              [{| vote_id := "simulate-turn"; vote_votes := ["u2"; "u1"] |}])).
  - reflexivity.
  - vm_compute. apply list_elem_of_further. apply list_elem_of_here.
  - vm_compute. reflexivity.
  - vm_compute. apply NoDup_singleton.
Defined.

(** The scenario of the specification, five members: the third vote
    reaches the threshold; from two votes the user can step back to
    one; at three the toggle changes nothing. *)
Example five_members_scenario :
  _getVoteThreshold (cooperativeGame []) = 3 /\
  _votes (exec (_toggleVote "simulate-turn")
            (cooperativeGame
               [{| vote_id := "simulate-turn"; vote_votes := ["u2"; "u3"] |}]))
  = [{| vote_id := "simulate-turn"; vote_votes := ["u2"; "u3"; "u1"] |}] /\
  _votes (exec (_toggleVote "simulate-turn")
            (cooperativeGame
               [{| vote_id := "simulate-turn"; vote_votes := ["u2"; "u1"] |}]))
  = [{| vote_id := "simulate-turn"; vote_votes := ["u2"] |}] /\
  _votes (exec (_toggleVote "simulate-turn")
            (cooperativeGame
               [{| vote_id := "simulate-turn"; vote_votes := ["u2"; "u3"; "u1"] |}]))
  = [{| vote_id := "simulate-turn"; vote_votes := ["u2"; "u3"; "u1"] |}].
Proof. repeat split. Qed.


(** With another record behind the deleted one, the stale index reads
    that record's tally instead: here the two votes for staging a
    control pass the gate, all votes are deleted and the turn is
    simulated although the user has just revoked the vote for it. *)
Example stale_index_reads_other_vote :
  completion (CooperativeGameService._handleClickSimulateTurn
                (Some clickSimulateTurn) true) loneVoteBesideOthers
  = Normal tt /\
  _votes (exec (CooperativeGameService._handleClickSimulateTurn
                  (Some clickSimulateTurn) true) loneVoteBesideOthers)
  = [] /\
  last (effects (exec (CooperativeGameService._handleClickSimulateTurn
                         (Some clickSimulateTurn) true) loneVoteBesideOthers))
  = Some (Ajax PostSimulateTurn).
Proof. repeat split. Qed.

(** The vote handlers of the control buttons share the pattern: revoking
    the only vote for staging a control ends in the same [TypeError]. *)
Example stale_index_in_stage_vote :
  completion (CooperativeGameService._handleClickImplementControl
                (clickControl firewall)) loneStageVoteGame
  = Thrown TypeError /\
  completion (CooperativeGameService._handleClickRemoveControl
                (clickControl firewall)) loneStageVoteGame
  = Thrown TypeError.
Proof. split; reflexivity. Qed.

(** * The poll registry *)

(** C8, as the specification states it, fails on [_addPoll]: registering
    a second callback under a name that is taken leaves the first
    callback and its arguments in place. *)
Lemma addPoll_does_not_replace :
  _polls
    (exec (_addPoll "new-controls" cb_renderSimulateButton
             [ArgMode table; ArgBool false])
       (exec (_addPoll "new-controls" cb_handleClickViewAvailableControls
                [ArgMode tiles; ArgBool false])
          (sampleGame Cooperative)))
  !! "new-controls"
  = Some {| poll_callback := cb_handleClickViewAvailableControls;
            poll_args := [ArgMode tiles; ArgBool false] |} /\
  _polls
    (exec (_addPoll "new-controls" cb_renderSimulateButton
             [ArgMode table; ArgBool false])
       (exec (_addPoll "new-controls" cb_handleClickViewAvailableControls
                [ArgMode tiles; ArgBool false])
          (sampleGame Cooperative)))
  !! "new-controls"
  ≠ Some {| poll_callback := cb_renderSimulateButton;
            poll_args := [ArgMode table; ArgBool false] |}.
Proof.
  assert (Hkept :
    _polls
      (exec (_addPoll "new-controls" cb_renderSimulateButton
               [ArgMode table; ArgBool false])
         (exec (_addPoll "new-controls" cb_handleClickViewAvailableControls
                  [ArgMode tiles; ArgBool false])
            (sampleGame Cooperative)))
    !! "new-controls"
    = Some {| poll_callback := cb_handleClickViewAvailableControls;
              poll_args := [ArgMode tiles; ArgBool false] |}).
  { vm_compute. reflexivity. }
  split; [exact Hkept|].
  rewrite Hkept. discriminate.
Qed.

Lemma set_polls_same (g : Game) : set_polls (_polls g) g = g.
Proof. destruct g; reflexivity. Qed.

Lemma pollFound_spec (g : Game) (key : string) :
  pollFound g key = true <->
  is_Some (_polls g !! key) \/ key ∈ objectPrototypeNames.
Proof. unfold pollFound. apply bool_decide_eq_true. Qed.

Lemma pollFound_free (g : Game) (key : string) :
  _polls g !! key = None -> (key ∉ objectPrototypeNames) ->
  pollFound g key = false.
Proof.
  intros Hfree Hown. apply not_true_is_false. rewrite pollFound_spec.
  intros [[poll Hpoll]|Hin]; [congruence | contradiction].
Qed.

(** C8, amended.  [_addPoll] under a name that already has a callback
    keeps the registered callback and its arguments and changes nothing,
    and so it does under a name the registry object inherits from
    [Object.prototype] ("constructor", "toString", ...), under which
    nothing is registered.  Under any other name that has no callback it
    registers the callback.  [_removePoll] of a name that is not
    registered changes nothing and raises no error. *)
Theorem addPoll_keeps_removePoll_ignores (key : string) (callback : Callback)
    (args : list Arg) (g : Game) :
  (forall poll : Poll,
     _polls g !! key = Some poll ->
     _addPoll key callback args g = (Normal tt, g)) /\
  (key ∈ objectPrototypeNames ->
   _addPoll key callback args g = (Normal tt, g)) /\
  (_polls g !! key = None ->
   (key ∉ objectPrototypeNames ->
    _polls (exec (_addPoll key callback args) g) !! key
    = Some {| poll_callback := callback; poll_args := args |}) /\
   _removePoll key g = (Normal tt, g)).
Proof.
  unfold _addPoll, _removePoll. run_method.
  split; [|split].
  - intros poll Hpoll.
    replace (pollFound g key) with true; [reflexivity|].
    symmetry. apply pollFound_spec. left. eauto.
  - intros Hin.
    replace (pollFound g key) with true; [reflexivity|].
    symmetry. apply pollFound_spec. right. exact Hin.
  - intros Hfree. split.
    + intros Hown. rewrite (pollFound_free g key Hfree Hown). simpl.
      apply lookup_insert_eq.
    + destruct (pollFound g key); [|reflexivity].
      unfold assign. rewrite delete_id by exact Hfree.
      rewrite set_polls_same. reflexivity.
Qed.

Lemma addPoll_keeps_removePoll_ignores_witness :
  _polls (sampleGame Cooperative) !! "new-controls" = None /\
  ("new-controls" ∉ objectPrototypeNames) /\
  _removePoll "new-controls" (sampleGame Cooperative)
  = (Normal tt, sampleGame Cooperative) /\
  _polls (exec (_addPoll "new-controls" cb_handleClickViewAvailableControls
                  [ArgMode tiles; ArgBool false]) (sampleGame Cooperative))
  !! "new-controls"
  = Some {| poll_callback := cb_handleClickViewAvailableControls;
            poll_args := [ArgMode tiles; ArgBool false] |} /\
  _addPoll "new-controls" cb_renderSimulateButton [ArgMode table; ArgBool false]
    (exec (_addPoll "new-controls" cb_handleClickViewAvailableControls
             [ArgMode tiles; ArgBool false]) (sampleGame Cooperative))
  = (Normal tt,
     exec (_addPoll "new-controls" cb_handleClickViewAvailableControls
             [ArgMode tiles; ArgBool false]) (sampleGame Cooperative)) /\
  ("constructor" ∈ objectPrototypeNames) /\
  _addPoll "constructor" cb_renderSimulateButton [] (sampleGame Cooperative)
  = (Normal tt, sampleGame Cooperative).
Proof.
  assert (Hfree : _polls (sampleGame Cooperative) !! "new-controls" = None).
  { vm_compute. reflexivity. }
  assert (Hown : "new-controls" ∉ objectPrototypeNames).
  { apply (bool_decide_unpack _). vm_compute. exact I. }
  assert (Htaken :
    _polls (exec (_addPoll "new-controls" cb_handleClickViewAvailableControls
                    [ArgMode tiles; ArgBool false]) (sampleGame Cooperative))
    !! "new-controls"
    = Some {| poll_callback := cb_handleClickViewAvailableControls;
              poll_args := [ArgMode tiles; ArgBool false] |}).
  { vm_compute. reflexivity. }
  assert (Hinherited : "constructor" ∈ objectPrototypeNames).
  { apply (bool_decide_unpack _). vm_compute. exact I. }
  split; [exact Hfree|].
  split; [exact Hown|].
  split.
  { exact (proj2 (proj2 (proj2 (addPoll_keeps_removePoll_ignores
                                  "new-controls" cb_renderSimulateButton []
                                  (sampleGame Cooperative))) Hfree)). }
  split; [exact Htaken|].
  split.
  { exact (proj1 (addPoll_keeps_removePoll_ignores
                    "new-controls" cb_renderSimulateButton
                    [ArgMode table; ArgBool false]
                    (exec (_addPoll "new-controls"
                             cb_handleClickViewAvailableControls
                             [ArgMode tiles; ArgBool false])
                          (sampleGame Cooperative))) _ Htaken). }
  split; [exact Hinherited|].
  exact (proj1 (proj2 (addPoll_keeps_removePoll_ignores
                         "constructor" cb_renderSimulateButton []
                         (sampleGame Cooperative))) Hinherited).
Defined.

(** * Further properties of the vote tally *)

Lemma votersOf_cons (vote : Votes) (votes : list Votes) (voteId : string) :
  votersOf (vote :: votes) voteId
  = if decide (vote_id vote = voteId) then vote_votes vote
    else votersOf votes voteId.
Proof.
  unfold votersOf. simpl.
  destruct (decide (vote_id vote = voteId)); [reflexivity|].
  destruct (list_find _ votes) as [[i v]|]; reflexivity.
Qed.

Lemma votersOf_none (votes : list Votes) (voteId : string) :
  list_find (fun v => vote_id v = voteId) votes = None ->
  votersOf votes voteId = [].
Proof. unfold votersOf. intros ->. reflexivity. Qed.

Lemma votersOf_app (votes more : list Votes) (voteId : string) :
  votersOf (votes ++ more) voteId
  = match list_find (fun vote => vote_id vote = voteId) votes with
    | Some (_, vote) => vote_votes vote
    | None => votersOf more voteId
    end.
Proof.
  induction votes as [|vote votes IH]; simpl; [reflexivity|].
  rewrite votersOf_cons.
  destruct (decide (vote_id vote = voteId)); [reflexivity|].
  rewrite IH. destruct (list_find _ votes) as [[i v]|]; reflexivity.
Qed.

Lemma votersOf_insert_other (votes : list Votes) (i : nat) (old new : Votes)
    (voteId : string) :
  votes !! i = Some old ->
  vote_id old ≠ voteId ->
  vote_id new ≠ voteId ->
  votersOf (<[i := new]> votes) voteId = votersOf votes voteId.
Proof.
  revert i. induction votes as [|vote votes IH]; intros [|i] Hi Hold Hnew;
    simpl in *; try discriminate.
  - injection Hi as ->. rewrite !votersOf_cons.
    destruct (decide (vote_id new = voteId)); [contradiction|].
    destruct (decide (vote_id old = voteId)); [contradiction|]. reflexivity.
  - rewrite !votersOf_cons. rewrite (IH i Hi Hold Hnew). reflexivity.
Qed.

Lemma votersOf_delete_other (votes : list Votes) (i : nat) (old : Votes)
    (voteId : string) :
  votes !! i = Some old ->
  vote_id old ≠ voteId ->
  votersOf (delete i votes) voteId = votersOf votes voteId.
Proof.
  revert i. induction votes as [|vote votes IH]; intros [|i] Hi Hold;
    simpl in *; try discriminate.
  - injection Hi as ->. rewrite votersOf_cons.
    destruct (decide (vote_id old = voteId)); [contradiction|]. reflexivity.
  - rewrite !votersOf_cons. rewrite (IH i Hi Hold). reflexivity.
Qed.

Ltac run_toggle :=
  unfold _toggleVote, _updateVotes, reachesThreshold;
  unfold exec, completion, mbind, M_bind, mret, M_ret, this, assign, emit,
    throw; simpl.

(** X1. [_toggleVote] touches nothing but the votes and the effect log;
    it sends the votes to the server exactly when it has changed them,
    and it changes them unless the action is locked. *)
Theorem toggleVote_reports_changes (voteId : string) (g : Game) :
  exec (_toggleVote voteId) g
  = (if locked g voteId then g
     else set_effects
            (effects g ++ [Ajax (PatchVotes (_votes (exec (_toggleVote voteId) g)))])
            (set_votes (_votes (exec (_toggleVote voteId) g)) g)) /\
  (_votes (exec (_toggleVote voteId) g) = _votes g <-> locked g voteId = true).
Proof.
  unfold locked. run_toggle.
  destruct (list_find (fun vote => vote_id vote = voteId) (_votes g))
    as [[voteIndex vote]|] eqn:Hfind; simpl.
  - apply list_find_Some in Hfind as (Hi & Hid & _).
    case_bool_decide as Hpassed; simpl; [split; [reflexivity | tauto]|].
    assert (Hchanged : forall voters : list string,
              length voters ≠ length (vote_votes vote) ->
              <[voteIndex := {| vote_id := vote_id vote; vote_votes := voters |}]>
                (_votes g) ≠ _votes g).
    { intros voters Hlen Heq.
      apply (f_equal (fun l => l !! voteIndex)) in Heq.
      rewrite list_lookup_insert_eq in Heq by (eapply lookup_lt_Some, Hi).
      rewrite Hi in Heq. injection Heq as Heq.
      apply (f_equal vote_votes) in Heq. simpl in Heq. congruence. }
    destruct (list_find (fun voterId => voterId = _userId g) (vote_votes vote))
      as [[userVoteIdx voter]|] eqn:Hme; simpl.
    + apply list_find_Some in Hme as (Hvoter & -> & _).
      assert (Hshorter :
        (length (filter (fun voterId => voterId ≠ _userId g) (vote_votes vote))
         < length (vote_votes vote))%nat).
      { apply list_elem_of_lookup_2 in Hvoter.
        clear -Hvoter. induction Hvoter as [x l|x y l Hin IH].
        - rewrite filter_cons_False by (intros H; apply H; reflexivity).
          pose proof (length_filter (fun voterId => voterId ≠ x) l). simpl. lia.
        - destruct (decide (y = x)) as [->|Hne].
          + rewrite filter_cons_False by (intros H; apply H; reflexivity).
            pose proof (length_filter (fun voterId => voterId ≠ x) l). simpl. lia.
          + rewrite filter_cons_True by exact Hne. simpl. lia. }
      destruct (filter (fun voterId => voterId ≠ _userId g) (vote_votes vote))
        as [|v vs] eqn:Hremaining; simpl.
      * split; [reflexivity|]. split; [|discriminate].
        intros Heq. apply (f_equal length) in Heq.
        rewrite length_delete, length_insert in Heq.
        -- apply lookup_lt_Some in Hi. lia.
        -- rewrite list_lookup_insert_eq by (eapply lookup_lt_Some, Hi). eauto.
      * split; [reflexivity|]. split; [|discriminate].
        intros Heq. exfalso. revert Heq. apply Hchanged. simpl in *. lia.
    + split; [reflexivity|]. split; [|discriminate].
      intros Heq. exfalso. revert Heq. apply Hchanged.
      rewrite length_app. simpl. lia.
  - split; [reflexivity|]. split; [|discriminate].
    intros Heq. apply (f_equal length) in Heq.
    rewrite length_app in Heq. simpl in Heq. lia.
Qed.

(** The three ways [_toggleVote] changes the votes, spelled out. *)
Lemma toggleVote_push (voteId : string) (g : Game) :
  list_find (fun vote => vote_id vote = voteId) (_votes g) = None ->
  completion (_toggleVote voteId) g = Normal (length (_votes g)) /\
  _votes (exec (_toggleVote voteId) g)
  = _votes g ++ [{| vote_id := voteId; vote_votes := [_userId g] |}].
Proof. run_toggle. intros ->. simpl. split; reflexivity. Qed.

Lemma toggleVote_cast (voteId : string) (i : nat) (vote : Votes) (g : Game) :
  list_find (fun vote => vote_id vote = voteId) (_votes g) = Some (i, vote) ->
  reachesThreshold g (Z.of_nat (length (vote_votes vote))) = false ->
  _userId g ∉ vote_votes vote ->
  completion (_toggleVote voteId) g = Normal i /\
  _votes (exec (_toggleVote voteId) g)
  = <[i := {| vote_id := voteId;
              vote_votes := vote_votes vote ++ [_userId g] |}]> (_votes g).
Proof.
  intros Hfind Hopen Hnew. unfold reachesThreshold in Hopen.
  run_toggle. rewrite Hfind, Hopen. simpl.
  apply list_find_Some in Hfind as (_ & <- & _).
  destruct (list_find (fun voterId => voterId = _userId g) (vote_votes vote))
    as [[j voter]|] eqn:Hme; simpl.
  - apply list_find_Some in Hme as (Hj & -> & _).
    apply list_elem_of_lookup_2 in Hj. contradiction.
  - split; reflexivity.
Qed.

Lemma toggleVote_revoke (voteId : string) (i : nat) (vote : Votes) (g : Game) :
  list_find (fun vote => vote_id vote = voteId) (_votes g) = Some (i, vote) ->
  reachesThreshold g (Z.of_nat (length (vote_votes vote))) = false ->
  _userId g ∈ vote_votes vote ->
  completion (_toggleVote voteId) g = Normal i /\
  _votes (exec (_toggleVote voteId) g)
  = match filter (fun voterId => voterId ≠ _userId g) (vote_votes vote) with
    | [] => delete i (_votes g)
    | voter :: voters =>
        <[i := {| vote_id := voteId; vote_votes := voter :: voters |}]> (_votes g)
    end.
Proof.
  intros Hfind Hopen Hin. unfold reachesThreshold in Hopen.
  run_toggle. rewrite Hfind, Hopen. simpl.
  apply list_find_Some in Hfind as (_ & <- & _).
  destruct (list_find (fun voterId => voterId = _userId g) (vote_votes vote))
    as [[j voter]|] eqn:Hme; simpl.
  - destruct (filter (fun voterId => voterId ≠ _userId g) (vote_votes vote));
      simpl; [rewrite delete_insert_same|]; split; reflexivity.
  - apply list_find_None in Hme. rewrite Forall_forall in Hme.
    exfalso. apply (Hme _ Hin). reflexivity.
Qed.

Lemma toggleVote_locked (voteId : string) (g : Game) :
  locked g voteId = true ->
  _toggleVote voteId g
  = (Normal (default 0%nat
               (fst <$> list_find (fun vote => vote_id vote = voteId) (_votes g))),
     g).
Proof.
  unfold locked. run_toggle.
  destruct (list_find (fun vote => vote_id vote = voteId) (_votes g))
    as [[i vote]|]; [|discriminate].
  unfold reachesThreshold. intros ->. reflexivity.
Qed.

(** [_toggleVote] leaves every field but the votes and the effect log. *)
Lemma toggleVote_fields (voteId : string) (g : Game) :
  let g' := exec (_toggleVote voteId) g in
  _gameType g' = _gameType g /\ _userId g' = _userId g /\
  state g' = state g /\ moneyPerTurn g' = moneyPerTurn g /\
  organisation g' = organisation g /\
  spendAvailable g' = spendAvailable g /\
  spendAllocated g' = spendAllocated g /\
  newControls g' = newControls g /\
  controlsToImplement g' = controlsToImplement g /\
  _placingControl g' = _placingControl g /\
  _polls g' = _polls g.
Proof.
  run_toggle.
  destruct (list_find (fun vote => vote_id vote = voteId) (_votes g))
    as [[i vote]|]; simpl; [|repeat split].
  case_bool_decide; simpl; [repeat split|].
  destruct (list_find (fun voterId => voterId = _userId g) (vote_votes vote));
    simpl; [|repeat split].
  destruct (filter (fun voterId => voterId ≠ _userId g) (vote_votes vote));
    simpl; repeat split.
Qed.

Lemma toggleVote_same_threshold (voteId : string) (g : Game) (tally : Z) :
  reachesThreshold (exec (_toggleVote voteId) g) tally = reachesThreshold g tally.
Proof.
  destruct (toggleVote_fields voteId g) as (_ & _ & _ & _ & Horg & _).
  unfold reachesThreshold, _getVoteThreshold. rewrite Horg. reflexivity.
Qed.

Lemma list_find_insert_same (votes : list Votes) (voteId : string) (i : nat)
    (vote : Votes) (voters : list string) :
  list_find (fun v => vote_id v = voteId) votes = Some (i, vote) ->
  list_find (fun v => vote_id v = voteId)
    (<[i := {| vote_id := voteId; vote_votes := voters |}]> votes)
  = Some (i, {| vote_id := voteId; vote_votes := voters |}).
Proof.
  intros Hfind. apply list_find_Some in Hfind as (Hi & Hid & Hfirst).
  apply list_find_Some. split; [|split].
  - apply list_lookup_insert_eq. eapply lookup_lt_Some, Hi.
  - reflexivity.
  - intros j y Hj Hlt. rewrite list_lookup_insert_ne in Hj by lia.
    eapply Hfirst; eassumption.
Qed.

Lemma list_find_push (votes : list Votes) (voteId : string)
    (voters : list string) :
  list_find (fun v => vote_id v = voteId) votes = None ->
  list_find (fun v => vote_id v = voteId)
    (votes ++ [{| vote_id := voteId; vote_votes := voters |}])
  = Some (length votes, {| vote_id := voteId; vote_votes := voters |}).
Proof.
  intros Hnone. apply list_find_None in Hnone. rewrite Forall_forall in Hnone.
  apply list_find_Some. split; [|split].
  - rewrite lookup_app_r by lia. rewrite Nat.sub_diag. reflexivity.
  - reflexivity.
  - intros j y Hj Hlt. rewrite lookup_app_l in Hj by lia.
    apply Hnone. eapply list_elem_of_lookup_2, Hj.
Qed.

(** X2. A cast vote.  When the action is not locked and the user is not
    yet recorded for it, [_toggleVote] adds the user to the voters of
    the action, and the index it returns is valid: the tally read
    through it is the previous tally plus one. *)
Theorem toggleVote_cast_index_valid (voteId : string) (g : Game) :
  locked g voteId = false ->
  _userId g ∉ votersOf (_votes g) voteId ->
  exists voteIndex : nat,
    completion (_toggleVote voteId) g = Normal voteIndex /\
    votersOf (_votes (exec (_toggleVote voteId) g)) voteId
    = votersOf (_votes g) voteId ++ [_userId g] /\
    completion (_getVoteTally voteIndex) (exec (_toggleVote voteId) g)
    = Normal (Z.of_nat (length (votersOf (_votes g) voteId)) + 1).
Proof.
  intros Hopen Hnew. unfold locked in Hopen.
  destruct (list_find (fun vote => vote_id vote = voteId) (_votes g))
    as [[i vote]|] eqn:Hfind.
  - rewrite (votersOf_found _ _ _ _ Hfind) in *.
    destruct (toggleVote_cast voteId i vote g Hfind Hopen Hnew) as [Hc Hv].
    exists i. split; [exact Hc|].
    pose proof (list_find_insert_same _ _ _ _ (vote_votes vote ++ [_userId g])
                  Hfind) as Hfound.
    rewrite Hv. split.
    + apply (votersOf_found _ _ _ _ Hfound).
    + apply list_find_Some in Hfound as (Hi & _).
      unfold _getVoteTally, completion, mbind, M_bind, this. simpl.
      rewrite Hv, Hi. simpl. rewrite length_app. simpl. f_equal. lia.
  - rewrite (votersOf_none _ _ Hfind) in *.
    destruct (toggleVote_push voteId g Hfind) as [Hc Hv].
    exists (length (_votes g)). split; [exact Hc|].
    pose proof (list_find_push _ _ [_userId g] Hfind) as Hfound.
    rewrite Hv. split.
    + apply (votersOf_found _ _ _ _ Hfound).
    + apply list_find_Some in Hfound as (Hi & _).
      unfold _getVoteTally, completion, mbind, M_bind, this. simpl.
      rewrite Hv, Hi. reflexivity.
Qed.

Lemma toggleVote_cast_index_valid_witness :
  locked oneVoteGame "simulate-turn" = false /\
  (_userId oneVoteGame ∉ votersOf (_votes oneVoteGame) "simulate-turn") /\
  exists voteIndex : nat,
    completion (_toggleVote "simulate-turn") oneVoteGame = Normal voteIndex /\
    votersOf (_votes (exec (_toggleVote "simulate-turn") oneVoteGame))
             "simulate-turn"
    = votersOf (_votes oneVoteGame) "simulate-turn" ++ [_userId oneVoteGame] /\
    completion (_getVoteTally voteIndex)
               (exec (_toggleVote "simulate-turn") oneVoteGame)
    = Normal (Z.of_nat (length (votersOf (_votes oneVoteGame) "simulate-turn"))
              + 1).
Proof.
  assert (Hopen : locked oneVoteGame "simulate-turn" = false)
    by (vm_compute; reflexivity).
  assert (Hnew : _userId oneVoteGame
                 ∉ votersOf (_votes oneVoteGame) "simulate-turn")
    by (apply (bool_decide_unpack _); vm_compute; exact I).
  split; [exact Hopen|]. split; [exact Hnew|].
  apply (toggleVote_cast_index_valid "simulate-turn" oneVoteGame Hopen Hnew).
Defined.

(** X3. Casting a vote and toggling again takes it back.  When the cast
    leaves the tally below the threshold, a second [_toggleVote] restores
    the votes exactly (a record the cast created is deleted again). *)
Theorem toggleVote_twice_restores (voteId : string) (g : Game) :
  _userId g ∉ votersOf (_votes g) voteId ->
  Z.of_nat (length (votersOf (_votes g) voteId)) + 1 < _getVoteThreshold g ->
  recordsWellFormed (_votes g) ->
  _votes (exec (_toggleVote voteId) (exec (_toggleVote voteId) g)) = _votes g.
Proof.
  intros Hnew Hbelow Hwf.
  destruct (toggleVote_fields voteId g) as (_ & Huser & _).
  destruct (list_find (fun vote => vote_id vote = voteId) (_votes g))
    as [[i vote]|] eqn:Hfind.
  - rewrite (votersOf_found _ _ _ _ Hfind) in *.
    assert (Hopen : reachesThreshold g (Z.of_nat (length (vote_votes vote)))
                    = false).
    { unfold reachesThreshold. apply bool_decide_eq_false_2. lia. }
    destruct (toggleVote_cast voteId i vote g Hfind Hopen Hnew) as [_ Hv].
    pose proof (list_find_insert_same _ _ _ _ (vote_votes vote ++ [_userId g])
                  Hfind) as Hfound.
    rewrite <- Hv in Hfound.
    destruct (toggleVote_revoke voteId i _ (exec (_toggleVote voteId) g) Hfound)
      as [_ Hv2].
    { rewrite toggleVote_same_threshold. unfold reachesThreshold.
      apply bool_decide_eq_false_2. simpl. rewrite length_app. simpl. lia. }
    { rewrite Huser. simpl. apply elem_of_app. right. apply list_elem_of_here. }
    rewrite Hv2, Huser. simpl.
    rewrite filter_app, filter_cons_False, filter_nil, app_nil_r
      by (intros Hne; apply Hne; reflexivity).
    rewrite (filter_other_absent _ _ Hnew).
    pose proof Hfind as Hfind'.
    apply list_find_Some in Hfind' as (Hi & Hid & _).
    destruct Hwf as [_ Hwf].
    destruct (Forall_lookup_1 _ _ _ _ Hwf Hi) as [Hnonempty _].
    destruct (vote_votes vote) as [|voter voters] eqn:Hvoters;
      [contradiction|].
    rewrite Hv, list_insert_insert_eq.
    apply list_insert_id. rewrite Hi. f_equal.
    destruct vote as [id voters']. simpl in *. congruence.
  - rewrite (votersOf_none _ _ Hfind) in *.
    destruct (toggleVote_push voteId g Hfind) as [_ Hv].
    pose proof (list_find_push _ _ [_userId g] Hfind) as Hfound.
    rewrite <- Hv in Hfound.
    destruct (toggleVote_revoke voteId _ _ (exec (_toggleVote voteId) g) Hfound)
      as [_ Hv2].
    { rewrite toggleVote_same_threshold. unfold reachesThreshold.
      apply bool_decide_eq_false_2. simpl in *. lia. }
    { rewrite Huser. simpl. apply list_elem_of_here. }
    rewrite Hv2, Huser. simpl.
    rewrite filter_cons_False, filter_nil by (intros Hne; apply Hne; reflexivity).
    rewrite Hv, delete_middle, app_nil_r. reflexivity.
Qed.

Lemma toggleVote_twice_restores_witness :
  (_userId oneVoteGame ∉ votersOf (_votes oneVoteGame) "simulate-turn") /\
  Z.of_nat (length (votersOf (_votes oneVoteGame) "simulate-turn")) + 1
  < _getVoteThreshold oneVoteGame /\
  recordsWellFormed (_votes oneVoteGame) /\
  _votes (exec (_toggleVote "simulate-turn")
            (exec (_toggleVote "simulate-turn") oneVoteGame))
  = _votes oneVoteGame.
Proof.
  assert (Hnew : _userId oneVoteGame
                 ∉ votersOf (_votes oneVoteGame) "simulate-turn")
    by (apply (bool_decide_unpack _); vm_compute; exact I).
  assert (Hbelow :
    Z.of_nat (length (votersOf (_votes oneVoteGame) "simulate-turn")) + 1
    < _getVoteThreshold oneVoteGame) by (vm_compute; reflexivity).
  assert (Hwf : recordsWellFormed (_votes oneVoteGame)).
  { unfold recordsWellFormed. apply (bool_decide_unpack _). vm_compute. exact I. }
  split; [exact Hnew|]. split; [exact Hbelow|]. split; [exact Hwf|].
  apply (toggleVote_twice_restores "simulate-turn" oneVoteGame Hnew Hbelow Hwf).
Defined.

(** X4. [_toggleVote] keeps the vote list well formed: one record per
    action, no record without voters left behind, no voter recorded
    twice for an action. *)
Theorem toggleVote_keeps_records_well_formed (voteId : string) (g : Game) :
  recordsWellFormed (_votes g) ->
  recordsWellFormed (_votes (exec (_toggleVote voteId) g)).
Proof.
  unfold recordsWellFormed. intros [Hids Hwf].
  split; [apply toggleVote_one_record_per_action, Hids|].
  destruct (list_find (fun vote => vote_id vote = voteId) (_votes g))
    as [[i vote]|] eqn:Hfind.
  - pose proof Hfind as Hfind'.
    apply list_find_Some in Hfind' as (Hi & _).
    destruct (Forall_lookup_1 _ _ _ _ Hwf Hi) as [_ Hnodup].
    destruct (reachesThreshold g (Z.of_nat (length (vote_votes vote))))
      eqn:Hgate.
    + assert (Hlocked : locked g voteId = true)
        by (unfold locked; rewrite Hfind; exact Hgate).
      unfold exec. rewrite (toggleVote_locked _ _ Hlocked). exact Hwf.
    + destruct (decide (_userId g ∈ vote_votes vote)) as [Hin|Hnotin].
      * destruct (toggleVote_revoke voteId i vote g Hfind Hgate Hin) as [_ ->].
        destruct (filter (fun voterId => voterId ≠ _userId g) (vote_votes vote))
          as [|voter voters] eqn:Hremaining.
        -- apply Forall_delete, Hwf.
        -- apply Forall_insert; [exact Hwf|]. simpl. split; [discriminate|].
           rewrite <- Hremaining. apply NoDup_filter, Hnodup.
      * destruct (toggleVote_cast voteId i vote g Hfind Hgate Hnotin) as [_ ->].
        apply Forall_insert; [exact Hwf|]. simpl. split.
        -- destruct (vote_votes vote); discriminate.
        -- apply NoDup_app. split; [exact Hnodup|]. split.
           ++ intros voter Hvoter Hlast.
              apply list_elem_of_singleton in Hlast. subst voter.
              contradiction.
           ++ apply NoDup_singleton.
  - destruct (toggleVote_push voteId g Hfind) as [_ ->].
    apply Forall_app. split; [exact Hwf|].
    apply Forall_singleton. simpl. split; [discriminate | apply NoDup_singleton].
Qed.

Lemma toggleVote_keeps_records_well_formed_witness :
  recordsWellFormed (_votes stageVoteGame) /\
  recordsWellFormed (_votes (exec (_toggleVote "control-c1") stageVoteGame)).
Proof.
  assert (Hwf : recordsWellFormed (_votes stageVoteGame)).
  { unfold recordsWellFormed. apply (bool_decide_unpack _). vm_compute. exact I. }
  split; [exact Hwf|].
  apply (toggleVote_keeps_records_well_formed "control-c1" stageVoteGame Hwf).
Defined.

(** [_toggleVote] on one action leaves the voters of every other action
    as they are. *)
Lemma toggleVote_other_actions (voteId other : string) (g : Game) :
  other ≠ voteId ->
  votersOf (_votes (exec (_toggleVote voteId) g)) other
  = votersOf (_votes g) other.
Proof.
  intros Hother.
  destruct (list_find (fun vote => vote_id vote = voteId) (_votes g))
    as [[i vote]|] eqn:Hfind.
  - pose proof Hfind as Hfind'.
    apply list_find_Some in Hfind' as (Hi & Hid & _).
    destruct (reachesThreshold g (Z.of_nat (length (vote_votes vote))))
      eqn:Hgate.
    + assert (Hlocked : locked g voteId = true)
        by (unfold locked; rewrite Hfind; exact Hgate).
      unfold exec. rewrite (toggleVote_locked _ _ Hlocked). reflexivity.
    + destruct (decide (_userId g ∈ vote_votes vote)) as [Hin|Hnotin].
      * destruct (toggleVote_revoke voteId i vote g Hfind Hgate Hin) as [_ ->].
        destruct (filter (fun voterId => voterId ≠ _userId g) (vote_votes vote)).
        -- apply (votersOf_delete_other _ _ _ _ Hi). congruence.
        -- apply (votersOf_insert_other _ _ _ _ _ Hi); simpl; congruence.
      * destruct (toggleVote_cast voteId i vote g Hfind Hgate Hnotin) as [_ ->].
        apply (votersOf_insert_other _ _ _ _ _ Hi); simpl; congruence.
  - destruct (toggleVote_push voteId g Hfind) as [_ ->].
    rewrite votersOf_app.
    destruct (list_find (fun vote => vote_id vote = other) (_votes g))
      as [[j v]|] eqn:Hj.
    + symmetry. apply (votersOf_found _ _ _ _ Hj).
    + rewrite (votersOf_none _ _ Hj), votersOf_cons. simpl.
      destruct (decide (voteId = other)); [congruence | reflexivity].
Qed.



Lemma deleteVotes_named (voteId : string) (g : Game) :
  voteId ≠ "" ->
  _votes (exec (_deleteVotes (Some voteId)) g)
  = match list_find (fun vote => vote_id vote = voteId) (_votes g) with
    | Some (i, _) => delete i (_votes g)
    | None => _votes g
    end.
Proof.
  intros Hid. unfold _deleteVotes.
  unfold exec, completion, mbind, M_bind, mret, M_ret, this, assign. simpl.
  destruct (decide (voteId = "")); [contradiction|].
  destruct (list_find (fun vote => vote_id vote = voteId) (_votes g))
    as [[i vote]|]; reflexivity.
Qed.

(** X6. [_deleteVotes].  It never fails.  Called for an action, it removes
    the record of that action (one record per action: no votes are left
    for it) and leaves the voters of every other action alone; without a
    record it changes nothing.  Called without an id, or with the empty
    id, it deletes all votes. *)
Theorem deleteVotes_removes_action (voteId : string) (g : Game) :
  voteId ≠ "" ->
  completion (_deleteVotes (Some voteId)) g = Normal tt /\
  (NoDup (vote_id <$> _votes g) ->
   votersOf (_votes (exec (_deleteVotes (Some voteId)) g)) voteId = []) /\
  (forall other : string,
     other ≠ voteId ->
     votersOf (_votes (exec (_deleteVotes (Some voteId)) g)) other
     = votersOf (_votes g) other) /\
  (list_find (fun vote => vote_id vote = voteId) (_votes g) = None ->
   exec (_deleteVotes (Some voteId)) g = g) /\
  _votes (exec (_deleteVotes None) g) = [] /\
  _votes (exec (_deleteVotes (Some "")) g) = [].
Proof.
  intros Hid. unfold _deleteVotes.
  unfold exec, completion, mbind, M_bind, mret, M_ret, this, assign. simpl.
  destruct (decide (voteId = "")); [contradiction|].
  destruct (list_find (fun vote => vote_id vote = voteId) (_votes g))
    as [[i vote]|] eqn:Hfind; simpl.
  - apply list_find_Some in Hfind as (Hi & Hvote & _).
    split; [reflexivity|]. split; [|split; [|split; [discriminate|]]].
    + intros Hnodup. rewrite <- Hvote.
      apply (votersOf_deleted _ _ _ Hnodup Hi).
    + intros other Hother.
      apply (votersOf_delete_other _ _ _ _ Hi). congruence.
    + split; reflexivity.
  - split; [reflexivity|]. split; [|split; [|split; [reflexivity|]]].
    + intros _. apply (votersOf_none _ _ Hfind).
    + reflexivity.
    + split; reflexivity.
Qed.

Lemma deleteVotes_removes_action_witness :
  "control-c1" ≠ "" /\
  completion (_deleteVotes (Some "control-c1")) stageVoteGame = Normal tt.
Proof.
  split; [discriminate|].
  apply (deleteVotes_removes_action "control-c1" stageVoteGame). discriminate.
Defined.

(** * Vote-gated handlers of the co-operative service *)

Lemma toggleVote_completes (voteId : string) (g : Game) :
  exists voteIndex : nat,
    _toggleVote voteId g = (Normal voteIndex, exec (_toggleVote voteId) g).
Proof.
  run_toggle.
  destruct (list_find (fun vote => vote_id vote = voteId) (_votes g))
    as [[i vote]|]; simpl; [|eauto].
  case_bool_decide; simpl; [eauto|].
  destruct (list_find (fun voterId => voterId = _userId g) (vote_votes vote));
    simpl; [|eauto].
  destruct (filter (fun voterId => voterId ≠ _userId g) (vote_votes vote));
    simpl; eauto.
Qed.

Lemma deleteVotes_fields (voteId : option string) (g : Game) :
  _deleteVotes voteId g
  = (Normal tt, set_votes (_votes (exec (_deleteVotes voteId) g)) g).
Proof.
  unfold _deleteVotes, exec, mbind, M_bind, mret, M_ret, this, assign. simpl.
  destruct voteId as [id|]; [|reflexivity].
  destruct (decide (id = "")); [reflexivity|].
  destruct (list_find (fun vote => vote_id vote = id) (_votes g)) as [[i v]|];
    [reflexivity|].
  destruct g; reflexivity.
Qed.

(** How the vote-gated stage handler unfolds once the vote is toggled. *)
Lemma cooperative_stage_unfold (event : Event) (g : Game) (voteIndex : nat) :
  completion (_toggleVote (target_id event)) g = Normal voteIndex ->
  let g1 := exec (_toggleVote (target_id event)) g in
  let g2 :=
    set_effects
      (effects g1 ++
       [RenderAvailableControlsModal
          (map (fun c => (control_id c,
                          controlButton c (controlsToImplement g1)
                            (spendAvailable g1)))
               (newControls g1))
          (if target_content_tiles event then tiles else table)
          (Some (_getVoteSummaries g1))]) g1 in
  CooperativeGameService._handleClickImplementControl event g
  = match _votes g1 !! voteIndex with
    | None => (Thrown TypeError, g2)
    | Some vote =>
        if reachesThreshold g1 (Z.of_nat (length (vote_votes vote))) then
          BaseGameService._handleClickImplementControl event
            (set_votes (_votes (exec (_deleteVotes (Some (target_id event))) g2))
                       g2)
        else (Normal tt, g2)
    end.
Proof.
  intros Hc g1 g2.
  destruct (toggleVote_completes (target_id event) g) as [i Ht].
  unfold completion in Hc. rewrite Ht in Hc. simpl in Hc.
  injection Hc as ->.
  unfold CooperativeGameService._handleClickImplementControl,
    renderAvailableControlsModal, _getVoteTally.
  unfold mbind, M_bind, mret, M_ret, this, emit, assign.
  rewrite Ht. fold g1. simpl. fold g2.
  change (_votes g2) with (_votes g1).
  destruct (_votes g1 !! voteIndex) as [vote|]; [|reflexivity].
  change (reachesThreshold g2) with (reachesThreshold g1).
  destruct (reachesThreshold g1 (Z.of_nat (length (vote_votes vote))));
    [|reflexivity].
  rewrite (deleteVotes_fields (Some (target_id event)) g2). reflexivity.
Qed.

Lemma cooperative_unstage_unfold (event : Event) (g : Game) (voteIndex : nat) :
  completion (_toggleVote (target_id event)) g = Normal voteIndex ->
  let g1 := exec (_toggleVote (target_id event)) g in
  let g2 :=
    set_effects
      (effects g1 ++
       [RenderAvailableControlsModal
          (map (fun c => (control_id c,
                          controlButton c (controlsToImplement g1)
                            (spendAvailable g1)))
               (newControls g1))
          (if target_content_tiles event then tiles else table)
          (Some (_getVoteSummaries g1))]) g1 in
  CooperativeGameService._handleClickRemoveControl event g
  = match _votes g1 !! voteIndex with
    | None => (Thrown TypeError, g2)
    | Some vote =>
        if reachesThreshold g1 (Z.of_nat (length (vote_votes vote))) then
          BaseGameService._handleClickRemoveControl event
            (set_votes (_votes (exec (_deleteVotes (Some (target_id event))) g2))
                       g2)
        else (Normal tt, g2)
    end.
Proof.
  intros Hc g1 g2.
  destruct (toggleVote_completes (target_id event) g) as [i Ht].
  unfold completion in Hc. rewrite Ht in Hc. simpl in Hc.
  injection Hc as ->.
  unfold CooperativeGameService._handleClickRemoveControl,
    renderAvailableControlsModal, _getVoteTally.
  unfold mbind, M_bind, mret, M_ret, this, emit, assign.
  rewrite Ht. fold g1. simpl. fold g2.
  change (_votes g2) with (_votes g1).
  destruct (_votes g1 !! voteIndex) as [vote|]; [|reflexivity].
  change (reachesThreshold g2) with (reachesThreshold g1).
  destruct (reachesThreshold g1 (Z.of_nat (length (vote_votes vote))));
    [|reflexivity].
  rewrite (deleteVotes_fields (Some (target_id event)) g2). reflexivity.
Qed.

Lemma toggleVote_cast_record (voteId : string) (g : Game) :
  locked g voteId = false ->
  _userId g ∉ votersOf (_votes g) voteId ->
  exists voteIndex : nat,
    completion (_toggleVote voteId) g = Normal voteIndex /\
    list_find (fun vote => vote_id vote = voteId)
              (_votes (exec (_toggleVote voteId) g))
    = Some (voteIndex,
            {| vote_id := voteId;
               vote_votes := votersOf (_votes g) voteId ++ [_userId g] |}).
Proof.
  intros Hopen Hnew. unfold locked in Hopen.
  destruct (list_find (fun vote => vote_id vote = voteId) (_votes g))
    as [[i vote]|] eqn:Hfind.
  - rewrite (votersOf_found _ _ _ _ Hfind) in *.
    destruct (toggleVote_cast voteId i vote g Hfind Hopen Hnew) as [Hc Hv].
    exists i. split; [exact Hc|]. rewrite Hv.
    apply list_find_insert_same with (vote := vote). exact Hfind.
  - rewrite (votersOf_none _ _ Hfind) in *.
    destruct (toggleVote_push voteId g Hfind) as [Hc Hv].
    exists (length (_votes g)). split; [exact Hc|]. rewrite Hv.
    apply list_find_push. exact Hfind.
Qed.

Lemma perform_keeps_votes (op : LedgerOp) (g : Game) :
  _votes (exec (perform op) g) = _votes g.
Proof.
  destruct op as [event|event]; simpl.
  - unfold BaseGameService._handleClickImplementControl.
    run_method. case_decide; simpl; use_rerender_frame; congruence.
  - unfold BaseGameService._handleClickRemoveControl.
    run_method. use_rerender_frame.
    destruct (BaseGameService.rerenderModal _ _) as [[[]|exn] g1]; simpl in *;
      congruence.
Qed.

Lemma perform_ledger_determined (op : LedgerOp) (a b : Game) :
  spendAvailable a = spendAvailable b ->
  spendAllocated a = spendAllocated b ->
  controlsToImplement a = controlsToImplement b ->
  spendAvailable (exec (perform op) a) = spendAvailable (exec (perform op) b) /\
  spendAllocated (exec (perform op) a) = spendAllocated (exec (perform op) b) /\
  controlsToImplement (exec (perform op) a)
  = controlsToImplement (exec (perform op) b).
Proof.
  intros Ha Hb Hc. destruct op as [event|event]; simpl.
  - destruct (stage_effect event a) as (_ & _ & _ & _ & Hyes & Hno).
    destruct (stage_effect event b) as (_ & _ & _ & _ & Hyes' & Hno').
    destruct (Z_lt_le_dec (spendAvailable a - target_value event) 0) as [Hlt|Hle].
    + destruct (Hno Hlt) as (-> & -> & ->).
      destruct Hno' as (-> & -> & ->); [lia | auto].
    + destruct (Hyes Hle) as (-> & -> & ->).
      destruct Hyes' as (-> & -> & ->); [lia|].
      rewrite Ha, Hb, Hc. auto.
  - destruct (unstage_effect event a) as (_ & _ & _ & _ & -> & -> & ->).
    destruct (unstage_effect event b) as (_ & _ & _ & _ & -> & -> & ->).
    rewrite Ha, Hb, Hc. auto.
Qed.

Lemma cooperative_unfold (op : LedgerOp) (g : Game) (voteIndex : nat) :
  completion (_toggleVote (target_id (opEvent op))) g = Normal voteIndex ->
  let g1 := exec (_toggleVote (target_id (opEvent op))) g in
  exists g2 : Game,
    unchangedRound g1 g2 /\ _polls g2 = _polls g1 /\
    performCooperative op g
    = match _votes g1 !! voteIndex with
      | None => (Thrown TypeError, g2)
      | Some vote =>
          if reachesThreshold g1 (Z.of_nat (length (vote_votes vote))) then
            perform op
              (set_votes
                 (_votes (exec (_deleteVotes (Some (target_id (opEvent op)))) g2))
                 g2)
          else (Normal tt, g2)
      end.
Proof.
  intros Hc g1.
  destruct op as [event|event]; simpl in *.
  - eexists. split; [|split; [|apply (cooperative_stage_unfold event g _ Hc)]];
      [constructor|]; reflexivity.
  - eexists. split; [|split; [|apply (cooperative_unstage_unfold event g _ Hc)]];
      [constructor|]; reflexivity.
Qed.

(** X7. The vote-gated handlers move the ledger only as the ungated
    handlers do.  Whoever casts or revokes the vote, whether or not it
    passes and whether the click completes or throws, a co-operative
    stage or de-stage click either leaves the available money, the
    allocated money and the staged list as they were, or leaves them as
    the base handler leaves them when called on the same ledger; the
    round allowance is never changed. *)
Theorem cooperative_ledger_follows_base (op : LedgerOp) (g : Game) :
  moneyPerTurn (exec (performCooperative op) g) = moneyPerTurn g /\
  ((spendAvailable (exec (performCooperative op) g) = spendAvailable g /\
    spendAllocated (exec (performCooperative op) g) = spendAllocated g /\
    controlsToImplement (exec (performCooperative op) g)
    = controlsToImplement g) \/
   (spendAvailable (exec (performCooperative op) g)
    = spendAvailable (exec (perform op) g) /\
    spendAllocated (exec (performCooperative op) g)
    = spendAllocated (exec (perform op) g) /\
    controlsToImplement (exec (performCooperative op) g)
    = controlsToImplement (exec (perform op) g))).
Proof.
  destruct (toggleVote_completes (target_id (opEvent op)) g) as [i Ht].
  assert (Hc : completion (_toggleVote (target_id (opEvent op))) g = Normal i)
    by (unfold completion; rewrite Ht; reflexivity).
  destruct (toggleVote_fields (target_id (opEvent op)) g)
    as (_ & _ & _ & Hm & _ & Ha & Hb & _ & Hs & _).
  destruct (cooperative_unfold op g i Hc) as (g2 & Hframe & _ & Hrun).
  destruct Hframe as [_ _ _ Hm2 _ Ha2 Hb2 _ Hs2 _ _].
  assert (Hkept :
    moneyPerTurn g2 = moneyPerTurn g /\ spendAvailable g2 = spendAvailable g /\
    spendAllocated g2 = spendAllocated g /\
    controlsToImplement g2 = controlsToImplement g)
    by (repeat split; congruence).
  clear Hm Ha Hb Hs Hm2 Ha2 Hb2 Hs2.
  destruct Hkept as (Hm & Ha & Hb & Hs).
  apply (f_equal snd) in Hrun. change (snd (performCooperative op g))
    with (exec (performCooperative op) g) in Hrun.
  rewrite Hrun. clear Hrun.
  destruct (_votes (exec (_toggleVote (target_id (opEvent op))) g) !! i)
    as [vote|]; [|simpl; split; [exact Hm | left; auto]].
  destruct (reachesThreshold _ _); [|simpl; split; [exact Hm | left; auto]].
  match goal with
  | |- context [perform op ?x] => set (inner := x)
  end.
  destruct (perform_keeps_balance op inner) as [Hm' _].
  destruct (perform_ledger_determined op inner g) as (Ha' & Hb' & Hs');
    [exact Ha | exact Hb | exact Hs |].
  unfold exec in Hm', Ha', Hb', Hs'. unfold exec.
  split; [rewrite Hm'; exact Hm | right; auto].
Qed.

(** X8. The vote gate of the control buttons.  When a member who has not
    yet voted for a stage or de-stage action casts a vote, the action is
    carried out only if the vote brings the tally to the threshold.
    Below it the ledger and the staged list are untouched and the vote
    is on record.  At the threshold the ledger and the staged list
    change exactly as under the ungated handler, the record of the
    action is deleted and the votes of the other actions stay. *)
Theorem cooperative_vote_gate (op : LedgerOp) (g : Game) :
  locked g (target_id (opEvent op)) = false ->
  _userId g ∉ votersOf (_votes g) (target_id (opEvent op)) ->
  (Z.of_nat (length (votersOf (_votes g) (target_id (opEvent op)))) + 1
   < _getVoteThreshold g ->
   completion (performCooperative op) g = Normal tt /\
   spendAvailable (exec (performCooperative op) g) = spendAvailable g /\
   spendAllocated (exec (performCooperative op) g) = spendAllocated g /\
   controlsToImplement (exec (performCooperative op) g) = controlsToImplement g /\
   votersOf (_votes (exec (performCooperative op) g)) (target_id (opEvent op))
   = votersOf (_votes g) (target_id (opEvent op)) ++ [_userId g]) /\
  (_getVoteThreshold g
   <= Z.of_nat (length (votersOf (_votes g) (target_id (opEvent op)))) + 1 ->
   spendAvailable (exec (performCooperative op) g)
   = spendAvailable (exec (perform op) g) /\
   spendAllocated (exec (performCooperative op) g)
   = spendAllocated (exec (perform op) g) /\
   controlsToImplement (exec (performCooperative op) g)
   = controlsToImplement (exec (perform op) g) /\
   (target_id (opEvent op) ≠ "" ->
    NoDup (vote_id <$> _votes g) ->
    votersOf (_votes (exec (performCooperative op) g)) (target_id (opEvent op))
    = []) /\
   (forall other : string,
      target_id (opEvent op) ≠ "" ->
      other ≠ target_id (opEvent op) ->
      votersOf (_votes (exec (performCooperative op) g)) other
      = votersOf (_votes g) other)).
Proof.
  intros Hopen Hnew.
  set (id := target_id (opEvent op)) in *.
  destruct (toggleVote_cast_record id g Hopen Hnew) as (i & Hc & Hfound).
  destruct (cooperative_unfold op g i Hc) as (g2 & Hframe & _ & Hrun).
  fold id in Hrun.
  destruct (toggleVote_fields id g)
    as (_ & _ & _ & _ & Horg & Ha & Hb & _ & Hstaged & _).
  destruct Hframe as [_ _ _ _ _ Ha2 Hb2 _ Hs2 _ Hv2].
  pose proof Hfound as Hrecord.
  apply list_find_Some in Hrecord as (Hi & _).
  rewrite Hi in Hrun. simpl in Hrun.
  rewrite toggleVote_same_threshold in Hrun.
  rewrite length_app in Hrun. simpl in Hrun.
  unfold reachesThreshold in Hrun.
  fold id in Ha2, Hb2, Hs2, Hv2.
  split; intros Hthreshold.
  - rewrite bool_decide_eq_false_2 in Hrun by lia.
    unfold completion, exec. rewrite Hrun. simpl.
    split; [reflexivity|].
    split; [congruence|]. split; [congruence|]. split; [congruence|].
    rewrite Hv2. apply (votersOf_found _ _ _ _ Hfound).
  - rewrite bool_decide_eq_true_2 in Hrun by lia.
    set (inner := set_votes
                    (_votes (exec (_deleteVotes (Some id)) g2)) g2) in *.
    assert (Hexec : exec (performCooperative op) g = exec (perform op) inner)
      by (unfold exec; rewrite Hrun; reflexivity).
    rewrite Hexec.
    destruct (perform_ledger_determined op inner g) as (Hra & Hrb & Hrs);
      [simpl; congruence..|].
    split; [exact Hra|]. split; [exact Hrb|]. split; [exact Hrs|].
    rewrite perform_keeps_votes. simpl.
    split.
    + intros Hid Hnodup. rewrite (deleteVotes_named id g2 Hid), Hv2, Hfound.
      pose proof (toggleVote_one_record_per_action id g Hnodup) as Hnodup1.
      change id with (vote_id {| vote_id := id;
                                 vote_votes := votersOf (_votes g) id
                                               ++ [_userId g] |}) at 2.
      apply (votersOf_deleted _ _ _ Hnodup1 Hi).
    + intros other Hid Hother.
      rewrite (deleteVotes_named id g2 Hid), Hv2, Hfound.
      rewrite (votersOf_delete_other _ _ _ _ Hi) by (simpl; congruence).
      apply toggleVote_other_actions. exact Hother.
Qed.

Lemma cooperative_vote_gate_witness :
  (locked stageVoteGame (target_id (opEvent (Stage (clickControl firewall))))
   = false /\
   (_userId stageVoteGame
    ∉ votersOf (_votes stageVoteGame)
        (target_id (opEvent (Stage (clickControl firewall))))) /\
   _getVoteThreshold stageVoteGame
   <= Z.of_nat (length (votersOf (_votes stageVoteGame)
                          (target_id (opEvent (Stage (clickControl firewall))))))
      + 1 /\
   spendAvailable (exec (performCooperative (Stage (clickControl firewall)))
                        stageVoteGame)
   = spendAvailable (exec (perform (Stage (clickControl firewall)))
                          stageVoteGame)) /\
  (locked shortVoteGame (target_id (opEvent (Stage (clickControl firewall))))
   = false /\
   (_userId shortVoteGame
    ∉ votersOf (_votes shortVoteGame)
        (target_id (opEvent (Stage (clickControl firewall))))) /\
   Z.of_nat (length (votersOf (_votes shortVoteGame)
                       (target_id (opEvent (Stage (clickControl firewall))))))
   + 1 < _getVoteThreshold shortVoteGame /\
   spendAvailable (exec (performCooperative (Stage (clickControl firewall)))
                        shortVoteGame)
   = spendAvailable shortVoteGame).
Proof.
  assert (Hopen :
    locked stageVoteGame (target_id (opEvent (Stage (clickControl firewall))))
    = false) by (vm_compute; reflexivity).
  assert (Hnew :
    _userId stageVoteGame
    ∉ votersOf (_votes stageVoteGame)
        (target_id (opEvent (Stage (clickControl firewall)))))
    by (apply (bool_decide_unpack _); vm_compute; exact I).
  assert (Hpass :
    _getVoteThreshold stageVoteGame
    <= Z.of_nat (length (votersOf (_votes stageVoteGame)
                           (target_id (opEvent (Stage (clickControl firewall))))))
       + 1) by (vm_compute; discriminate).
  assert (Hopen' :
    locked shortVoteGame (target_id (opEvent (Stage (clickControl firewall))))
    = false) by (vm_compute; reflexivity).
  assert (Hnew' :
    _userId shortVoteGame
    ∉ votersOf (_votes shortVoteGame)
        (target_id (opEvent (Stage (clickControl firewall)))))
    by (apply (bool_decide_unpack _); vm_compute; exact I).
  assert (Hshort :
    Z.of_nat (length (votersOf (_votes shortVoteGame)
                        (target_id (opEvent (Stage (clickControl firewall))))))
    + 1 < _getVoteThreshold shortVoteGame) by (vm_compute; reflexivity).
  split.
  - split; [exact Hopen|]. split; [exact Hnew|]. split; [exact Hpass|].
    exact (proj1 (proj2 (cooperative_vote_gate (Stage (clickControl firewall))
                           stageVoteGame Hopen Hnew) Hpass)).
  - split; [exact Hopen'|]. split; [exact Hnew'|]. split; [exact Hshort|].
    exact (proj1 (proj2 (proj1 (cooperative_vote_gate
                                  (Stage (clickControl firewall))
                                  shortVoteGame Hopen' Hnew') Hshort))).
Defined.

(** * Ending the round *)

Lemma simulate_effect (answer : bool) (g : Game) :
  let g' := exec (BaseGameService._handleClickSimulateTurn answer) g in
  completion (BaseGameService._handleClickSimulateTurn answer) g = Normal tt /\
  state g' = match controlsToImplement g with [] => state g | _ :: _ => Placing end /\
  moneyPerTurn g' = moneyPerTurn g /\
  spendAvailable g' = spendAvailable g /\
  spendAllocated g' = spendAllocated g /\
  controlsToImplement g' = controlsToImplement g /\
  _placingControl g' = _placingControl g /\
  _votes g' = _votes g /\
  _polls g' = _polls g.
Proof.
  unfold BaseGameService._handleClickSimulateTurn.
  run_method.
  destruct (controlsToImplement g) as [|staged0 staged] eqn:Hstaged; simpl.
  - destruct answer; simpl.
    + match goal with
      | |- context [BaseGameService._simulateTurn ?x] =>
          destruct (simulateTurn_effect x) as (Hc & shown & Hexec & _);
          unfold exec, completion in Hc, Hexec;
          destruct (BaseGameService._simulateTurn x) as [c g1]
      end.
      simpl in *. subst c g1. simpl. rewrite ?Hstaged.
      repeat split; reflexivity.
    + rewrite ?Hstaged. repeat split; reflexivity.
  - unfold BaseGameService._renderGameState, BaseGameService.renderGameStateWith,
      BaseGameService._placeControls, renderSimulateButton.
    run_method. rewrite Hstaged. simpl. rewrite ?Hstaged.
    repeat split; reflexivity.
Qed.

(** X9. Confirming the end of the round never fails and never touches
    the ledger, the staged list or the placement candidate: what was
    staged in Purchasing is what Placing starts from. *)
Theorem simulate_turn_keeps_ledger (answer : bool) (g : Game) :
  completion (BaseGameService._handleClickSimulateTurn answer) g = Normal tt /\
  spendAvailable (exec (BaseGameService._handleClickSimulateTurn answer) g)
  = spendAvailable g /\
  spendAllocated (exec (BaseGameService._handleClickSimulateTurn answer) g)
  = spendAllocated g /\
  controlsToImplement (exec (BaseGameService._handleClickSimulateTurn answer) g)
  = controlsToImplement g /\
  _placingControl (exec (BaseGameService._handleClickSimulateTurn answer) g)
  = _placingControl g.
Proof.
  destruct (simulate_effect answer g)
    as (Hc & _ & _ & Ha & Hb & Hs & Hp & _).
  repeat split; assumption.
Qed.




(** * Rendering the game state and placing controls *)

Lemma placeControls_effect (g : Game) :
  let g' := exec BaseGameService._placeControls g in
  completion BaseGameService._placeControls g = Normal tt /\
  unchangedRound g g' /\ _polls g' = _polls g /\
  last (effects g')
  = Some (match controlsToImplement g with
          | [] => Ajax PostSimulateTurn
          | _ :: _ =>
              RenderControlPlacementModal
                (filter (fun control =>
                           Some (control_id control) ∈ controlsToImplement g)
                        (newControls g))
          end).
Proof.
  unfold BaseGameService._placeControls.
  run_method.
  destruct (controlsToImplement g) as [|id ids] eqn:Hstaged; simpl.
  - destruct (simulateTurn_effect g) as (Hc & shown & Hexec & Hlast & _).
    unfold exec, completion in Hc, Hexec.
    destruct (BaseGameService._simulateTurn g) as [c g1].
    simpl in *. subst c g1.
    split; [reflexivity|]. split; [constructor; reflexivity|].
    split; [reflexivity|]. simpl. rewrite last_app, Hlast. reflexivity.
  - split; [reflexivity|]. split; [constructor; simpl; congruence|].
    split; [reflexivity|]. apply last_snoc.
Qed.

Lemma placeControls_keeps_effects (effect : Effect) (g : Game) :
  effect ∈ effects g ->
  effect ∈ effects (exec BaseGameService._placeControls g).
Proof.
  intros Hin.
  unfold BaseGameService._placeControls.
  run_method.
  destruct (controlsToImplement g); simpl.
  - destruct (simulateTurn_effect g) as (_ & shown & Hexec & _).
    unfold exec in Hexec. rewrite Hexec. simpl.
    apply elem_of_app. left. exact Hin.
  - apply elem_of_app. left. exact Hin.
Qed.

Ltac split_rendering :=
  repeat (match goal with
          | |- context [match rendering ?a ?b with _ => _ end] =>
              destruct (rendering a b); simpl
          end).

(** X11. What [_renderGameState] does to the service object.  For
    [Ended] it writes the banner and then throws "Unknown game state!":
    the simulate button has no case for that state, and the end-of-game
    screen is not reached.  For [Placing] and [Simulating] it completes.
    For [Purchasing] it leaves the ledger at
    [spendAvailable = moneyPerTurn], [spendAllocated = 0], and for every
    other state it leaves the ledger as it was, whether or not the
    rendering of the display completes.  In no state does it change the
    phase, the staged list or the placement candidate. *)
Theorem renderGameState_outcomes (st : GameState) (g : Game) :
  BaseGameService._renderGameState Ended g
  = (Thrown "Unknown game state!",
     set_effects (effects g ++ [RenderGameStateBanner Ended]) g) /\
  (st = Placing \/ st = Simulating ->
   completion (BaseGameService._renderGameState st) g = Normal tt) /\
  (st = Purchasing ->
   spendAvailable (exec (BaseGameService._renderGameState st) g)
   = moneyPerTurn g /\
   spendAllocated (exec (BaseGameService._renderGameState st) g) = 0) /\
  (st ≠ Purchasing ->
   spendAvailable (exec (BaseGameService._renderGameState st) g)
   = spendAvailable g /\
   spendAllocated (exec (BaseGameService._renderGameState st) g)
   = spendAllocated g) /\
  state (exec (BaseGameService._renderGameState st) g) = state g /\
  moneyPerTurn (exec (BaseGameService._renderGameState st) g) = moneyPerTurn g /\
  controlsToImplement (exec (BaseGameService._renderGameState st) g)
  = controlsToImplement g /\
  _placingControl (exec (BaseGameService._renderGameState st) g)
  = _placingControl g.
Proof.
  split; [reflexivity|].
  destruct st.
  - unfold BaseGameService._renderGameState,
      BaseGameService.renderGameStateWith, renderSimulateButton, unembedded.
    run_method. split_rendering;
      (split; [intros [Hst|Hst]; discriminate|]);
      (split; [intros _; split; reflexivity|]);
      (split; [intros Hne; contradiction|]);
      repeat split; reflexivity.
  - unfold BaseGameService._renderGameState,
      BaseGameService.renderGameStateWith, renderSimulateButton.
    run_method.
    match goal with
    | |- context [BaseGameService._placeControls ?x] =>
        destruct (placeControls_effect x) as (Hc & Hframe & _)
    end.
    destruct Hframe as [_ _ Hst Hm _ Ha Hb _ Hs Hp _].
    unfold exec, completion in *. simpl in *.
    split; [intros _; exact Hc|].
    split; [intros Hst'; discriminate|].
    split; [intros _; split; assumption|].
    repeat split; assumption.
  - unfold BaseGameService._renderGameState,
      BaseGameService.renderGameStateWith,
      BaseGameService._getOrganisationDetails, renderSimulateButton.
    run_method.
    destruct (server g _); simpl;
      (split; [intros _; reflexivity|]);
      (split; [intros Hst'; discriminate|]);
      (split; [intros _; split; reflexivity|]);
      repeat split; reflexivity.
  - unfold BaseGameService._renderGameState,
      BaseGameService.renderGameStateWith, renderSimulateButton, unembedded.
    run_method. split_rendering;
      (split; [intros [Hst|Hst]; discriminate|]);
      (split; [intros Hst'; discriminate|]);
      (split; [intros _; split; reflexivity|]);
      repeat split; reflexivity.
  - split; [intros [Hst|Hst]; discriminate|].
    split; [intros Hst'; discriminate|].
    split; [intros _; split; reflexivity|].
    repeat split; reflexivity.
Qed.

Lemma renderGameState_outcomes_witness :
  brokenSurroundings ≠ roundStart /\
  completion (BaseGameService._renderGameState Purchasing) brokenSurroundings
  = Thrown "Unknown environment value!" /\
  spendAvailable brokenSurroundings = 250 /\
  spendAvailable
    (exec (BaseGameService._renderGameState Purchasing) brokenSurroundings)
  = moneyPerTurn brokenSurroundings /\
  spendAllocated
    (exec (BaseGameService._renderGameState Purchasing) brokenSurroundings)
  = 0 /\
  completion (BaseGameService._renderGameState Simulating) brokenSurroundings
  = Normal tt /\
  spendAvailable
    (exec (BaseGameService._renderGameState Simulating) brokenSurroundings)
  = spendAvailable brokenSurroundings.
Proof.
  split; [intros Heq; apply (f_equal spendAvailable) in Heq; discriminate|].
  split; [reflexivity|]. split; [reflexivity|].
  destruct (renderGameState_outcomes Purchasing brokenSurroundings)
    as (_ & _ & Hpurchasing & _).
  destruct (renderGameState_outcomes Simulating brokenSurroundings)
    as (_ & Hcompletes & _ & Hkept & _).
  split; [apply Hpurchasing; reflexivity|].
  split; [apply Hpurchasing; reflexivity|].
  split; [apply Hcompletes; right; reflexivity|].
  apply Hkept. discriminate.
Defined.

(** X12. Placing on the right asset.  In the Placing phase, a click on the
    asset the candidate belongs to takes the control off the staged
    list, asks the server to implement it and clears the candidate; the
    ledger figures stay.  If controls remain staged the placement modal
    is shown again, otherwise the turn is simulated. *)
Theorem right_asset_places (AssetLocations : gmap string Asset)
    (event : Event) (placing : Control) (g : Game) :
  state g = Placing ->
  _placingControl g = Some placing ->
  control_asset placing = parent_asset_id event ->
  let remaining :=
    filter (fun controlId => Some (control_id placing) ≠ controlId)
           (controlsToImplement g) in
  let g' := exec (BaseGameService._handleClickAssetIcon AssetLocations event) g in
  completion (BaseGameService._handleClickAssetIcon AssetLocations event) g
  = Normal tt /\
  controlsToImplement g' = remaining /\
  (Some (control_id placing) ∉ controlsToImplement g') /\
  _placingControl g' = None /\
  spendAvailable g' = spendAvailable g /\
  spendAllocated g' = spendAllocated g /\
  (Ajax (PatchAddControl (control_id placing)) ∈ effects g') /\
  last (effects g')
  = Some (match remaining with
          | [] => Ajax PostSimulateTurn
          | _ :: _ =>
              RenderControlPlacementModal
                (filter (fun control => Some (control_id control) ∈ remaining)
                        (newControls g))
          end).
Proof.
  intros Hstate Hplacing Hasset remaining g'. subst g'.
  unfold BaseGameService._handleClickAssetIcon, BaseGameService._implementControl.
  run_method. rewrite Hstate, Hplacing.
  destruct (decide (control_asset placing = parent_asset_id event));
    [|contradiction].
  simpl. fold remaining.
  match goal with
  | |- context [BaseGameService._placeControls ?x] =>
      destruct (placeControls_effect x) as (Hc & Hframe & _ & Hlast);
      set (inner := x) in *
  end.
  unfold completion, exec in Hc, Hframe, Hlast.
  destruct Hframe as [_ _ _ _ _ Ha Hb Hn Hs Hp _].
  simpl in Ha, Hb, Hn, Hs, Hp, Hlast.
  split; [exact Hc|]. split; [exact Hs|].
  split.
  { rewrite Hs. unfold remaining. intros Hin.
    apply list_elem_of_filter in Hin as [Hne _]. apply Hne. reflexivity. }
  split; [exact Hp|]. split; [exact Ha|]. split; [exact Hb|].
  split; [|exact Hlast].
  apply placeControls_keeps_effects.
  simpl. rewrite !elem_of_app. left. left. right. apply list_elem_of_here.
Qed.

Lemma right_asset_places_witness :
  state placingFirewall = Placing /\
  _placingControl placingFirewall = Some firewall /\
  control_asset firewall = parent_asset_id (clickAsset "server") /\
  _placingControl
    (exec (BaseGameService._handleClickAssetIcon ∅ (clickAsset "server"))
          placingFirewall) = None.
Proof.
  split; [reflexivity|]. split; [reflexivity|]. split; [reflexivity|].
  apply (right_asset_places ∅ (clickAsset "server") firewall placingFirewall);
    reflexivity.
Defined.

Lemma showAssetControls_unchangedRound (asset : option Asset) (mode : ViewMode)
    (g : Game) :
  unchangedRound g (exec (BaseGameService._showAssetControls asset mode) g).
Proof.
  unfold BaseGameService._showAssetControls. run_method.
  destruct asset; [|destruct (org_controls (organisation g))];
    constructor; reflexivity.
Qed.

(** X13. What a click on an asset icon never does.  In no state does it
    change the available or allocated money, and it never adds to the
    staged list: whatever is staged afterwards was staged before. *)
Theorem asset_click_never_spends (AssetLocations : gmap string Asset)
    (event : Event) (g : Game) :
  spendAvailable (exec (BaseGameService._handleClickAssetIcon AssetLocations event) g)
  = spendAvailable g /\
  spendAllocated (exec (BaseGameService._handleClickAssetIcon AssetLocations event) g)
  = spendAllocated g /\
  state (exec (BaseGameService._handleClickAssetIcon AssetLocations event) g)
  = state g /\
  controlsToImplement
    (exec (BaseGameService._handleClickAssetIcon AssetLocations event) g)
  ⊆ controlsToImplement g.
Proof.
  assert (Hsub : controlsToImplement g ⊆ controlsToImplement g)
    by (intros id Hid; exact Hid).
  unfold BaseGameService._handleClickAssetIcon, BaseGameService._implementControl.
  run_method.
  destruct (state g) eqn:Hstate; simpl; try (repeat split; assumption).
  - match goal with
    | |- context [BaseGameService._showAssetControls ?a ?m g] =>
        destruct (showAssetControls_unchangedRound a m g)
          as [_ _ Hst _ _ Ha Hb _ Hs _ _]
    end.
    unfold exec in *. rewrite Ha, Hb, Hs, Hst. repeat split; assumption.
  - destruct (_placingControl g) as [placing|]; simpl;
      [|repeat split; assumption].
    destruct (decide (control_asset placing = parent_asset_id event)); simpl;
      [|repeat split; assumption].
    match goal with
    | |- context [BaseGameService._placeControls ?x] =>
        destruct (placeControls_effect x) as (_ & Hframe & _)
    end.
    destruct Hframe as [_ _ Hst _ _ Ha Hb _ Hs _ _].
    unfold exec in *. simpl in *. rewrite Ha, Hb, Hs, Hst.
    repeat split; try assumption.
    intros id Hid. apply list_elem_of_filter in Hid as [_ Hid]. exact Hid.
Qed.

(** X14. Choosing the control to place.  When
    [_handleClickPlacableControl] completes, the candidate is a control
    of the catalogue ([newControls]) whose id is the one written in the
    id of the clicked element or of its tile.  When no control has that
    id it throws and leaves no candidate; when the click has no element
    id at all it throws before touching the candidate.  The staged list
    and the ledger figures are left alone. *)
Theorem placable_control_from_catalogue (event : Event) (g : Game) :
  match completion (BaseGameService._handleClickPlacableControl event) g with
  | Normal _ =>
      exists control : Control,
        _placingControl
          (exec (BaseGameService._handleClickPlacableControl event) g)
        = Some control /\
        control ∈ newControls g /\
        controlIdFrom (if decide (target_id event = "")
                       then default "" (parent_tile_id event)
                       else target_id event)
        = Some (control_id control)
  | Thrown exn =>
      (exn = "Error getting control!" /\
       _placingControl
         (exec (BaseGameService._handleClickPlacableControl event) g) = None) \/
      (exn = TypeError /\
       exec (BaseGameService._handleClickPlacableControl event) g = g)
  end /\
  controlsToImplement (exec (BaseGameService._handleClickPlacableControl event) g)
  = controlsToImplement g /\
  spendAvailable (exec (BaseGameService._handleClickPlacableControl event) g)
  = spendAvailable g /\
  spendAllocated (exec (BaseGameService._handleClickPlacableControl event) g)
  = spendAllocated g.
Proof.
  unfold BaseGameService._handleClickPlacableControl. run_method.
  destruct (decide (target_id event = "")) as [Hnoid|Hid]; simpl.
  - destruct (parent_tile_id event) as [tile|] eqn:Htile; simpl.
    + destruct (list_find _ (newControls g)) as [[i control]|] eqn:Hfind;
        simpl.
      * apply list_find_Some in Hfind as (Hi & Hcid & _).
        split; [|repeat split].
        exists control. split; [reflexivity|].
        split; [eapply list_elem_of_lookup_2, Hi | congruence].
      * split; [left; split; reflexivity | repeat split].
    + split; [right; split; reflexivity | repeat split].
  - destruct (list_find _ (newControls g)) as [[i control]|] eqn:Hfind; simpl.
    + apply list_find_Some in Hfind as (Hi & Hcid & _).
      split; [|repeat split].
      exists control. split; [reflexivity|].
      split; [eapply list_elem_of_lookup_2, Hi | congruence].
    + split; [left; split; reflexivity | repeat split].
Qed.

(** * More on the round ledger *)

(** X15. De-staging has no guard.  A de-stage click for a control that is
    not staged still moves its cost from allocated to available; the
    staged list stays as it is. *)
Theorem unstage_not_staged_still_refunds (event : Event) (g : Game) :
  controlIdOf event ∉ controlsToImplement g ->
  controlsToImplement (exec (BaseGameService._handleClickRemoveControl event) g)
  = controlsToImplement g /\
  spendAvailable (exec (BaseGameService._handleClickRemoveControl event) g)
  = spendAvailable g + target_value event /\
  spendAllocated (exec (BaseGameService._handleClickRemoveControl event) g)
  = spendAllocated g - target_value event.
Proof.
  intros Hfresh.
  destruct (unstage_effect event g) as (_ & _ & _ & _ & Ha & Hb & Hs).
  simpl in *. rewrite Ha, Hb, Hs.
  split; [apply filter_other_absent, Hfresh | split; reflexivity].
Qed.

Lemma unstage_not_staged_still_refunds_witness :
  (controlIdOf (clickControl firewall) ∉ controlsToImplement roundStart) /\
  spendAvailable
    (exec (BaseGameService._handleClickRemoveControl (clickControl firewall))
          roundStart)
  = spendAvailable roundStart + target_value (clickControl firewall).
Proof.
  assert (Hfresh : controlIdOf (clickControl firewall)
                   ∉ controlsToImplement roundStart)
    by (apply (bool_decide_unpack _); vm_compute; exact I).
  split; [exact Hfresh|].
  apply (unstage_not_staged_still_refunds (clickControl firewall) roundStart
           Hfresh).
Defined.

Lemma perform_keeps_non_negative (op : LedgerOp) (g : Game) :
  0 <= spendAvailable g ->
  match op with Stage _ => True | Unstage event => 0 <= target_value event end ->
  0 <= spendAvailable (exec (perform op) g).
Proof.
  intros Hg Hop. destruct op as [event|event]; simpl.
  - destruct (stage_effect event g) as (_ & _ & _ & _ & Hyes & Hno).
    destruct (Z_lt_le_dec (spendAvailable g - target_value event) 0) as [Hlt|Hle].
    + destruct (Hno Hlt) as (-> & _). exact Hg.
    + destruct (Hyes Hle) as (-> & _). exact Hle.
  - destruct (unstage_effect event g) as (_ & _ & _ & _ & -> & _). lia.
Qed.

(** X16. The player cannot overspend.  Staging never takes the available
    money below zero, whatever the cost on the button; so along every
    sequence of stage and de-stage clicks whose refunds are not
    negative, the available money stays at or above zero. *)
Theorem available_never_negative (ops : list LedgerOp) (g : Game) :
  0 <= spendAvailable g ->
  refundsNonNegative ops = true ->
  Forall (fun g' => 0 <= spendAvailable g') (run ops g).
Proof.
  revert g. induction ops as [|op ops IH]; intros g Hg Hops; simpl.
  - constructor.
  - simpl in Hops. apply andb_true_iff in Hops as [Hop Hops].
    assert (Hg' : 0 <= spendAvailable (exec (perform op) g)).
    { apply perform_keeps_non_negative; [exact Hg|].
      destruct op as [event|event]; [exact I|].
      apply bool_decide_eq_true in Hop. exact Hop. }
    constructor; [exact Hg' | apply IH; assumption].
Qed.

Lemma available_never_negative_witness :
  0 <= spendAvailable roundStart /\
  refundsNonNegative sampleOps = true /\
  Forall (fun g' => 0 <= spendAvailable g') (run sampleOps roundStart).
Proof.
  split; [vm_compute; discriminate|]. split; [reflexivity|].
  apply (available_never_negative sampleOps roundStart);
    [vm_compute; discriminate | reflexivity].
Defined.

(** X17. The button and the handlers agree, for a control whose id has
    no dash.  A click on its "Implement" button, with the id and the
    value the rendering writes on it, always stages the control, after
    which the modal renders "Remove" for it; a click on that button
    takes the staging back: the staged list is as before and the button
    is "Implement" again. *)
Theorem offered_button_round_trip (control : Control) (event : Event)
    (g : Game) :
  occurs "-"%char (control_id control) = false ->
  target_id event = controlButtonId control ->
  target_value event = control_cost control ->
  controlButton control (controlsToImplement g) (spendAvailable g)
  = ImplementButton ->
  controlButton control
    (controlsToImplement (exec (BaseGameService._handleClickImplementControl event) g))
    (spendAvailable (exec (BaseGameService._handleClickImplementControl event) g))
  = RemoveButton /\
  controlButton control
    (controlsToImplement
       (exec (BaseGameService._handleClickRemoveControl event)
          (exec (BaseGameService._handleClickImplementControl event) g)))
    (spendAvailable
       (exec (BaseGameService._handleClickRemoveControl event)
          (exec (BaseGameService._handleClickImplementControl event) g)))
  = ImplementButton /\
  controlsToImplement
    (exec (BaseGameService._handleClickRemoveControl event)
       (exec (BaseGameService._handleClickImplementControl event) g))
  = controlsToImplement g.
Proof.
  intros Hdash Htarget Hvalue Hbutton.
  assert (Hid : controlIdOf event = Some (control_id control)).
  { unfold controlIdOf. rewrite Htarget.
    apply controlButtonId_parsed, Hdash. }
  unfold controlButton in Hbutton.
  destruct (decide (Some (control_id control) ∈ controlsToImplement g))
    as [|Hfresh]; [discriminate|].
  destruct (decide (control_cost control <= spendAvailable g)) as [Hcost|];
    [|discriminate].
  destruct (stage_effect event g) as (_ & _ & _ & _ & Hyes & _).
  destruct Hyes as (Ha & Hb & Hs); [lia|].
  destruct (unstage_effect event
              (exec (BaseGameService._handleClickImplementControl event) g))
    as (_ & _ & _ & _ & Ha' & Hb' & Hs').
  simpl in *.
  assert (Hback :
    filter (fun id => id ≠ controlIdOf event)
           (controlsToImplement g ++ [controlIdOf event])
    = controlsToImplement g).
  { rewrite filter_app, filter_cons_False, filter_nil, app_nil_r
      by (intros Hne; apply Hne; reflexivity).
    apply filter_other_absent. rewrite Hid. exact Hfresh. }
  rewrite Ha', Hs', Ha, Hs, Hback.
  split.
  { unfold controlButton.
    destruct (decide (Some (control_id control)
                      ∈ controlsToImplement g ++ [controlIdOf event]))
      as [|Hnot]; [reflexivity|].
    exfalso. apply Hnot. rewrite elem_of_app, Hid. right.
    apply list_elem_of_here. }
  split; [|reflexivity].
  unfold controlButton.
  destruct (decide (Some (control_id control) ∈ controlsToImplement g));
    [contradiction|].
  destruct (decide (control_cost control
                    <= spendAvailable g - target_value event
                       + target_value event)); [reflexivity | lia].
Qed.

Lemma offered_button_round_trip_witness :
  occurs "-"%char (control_id firewall) = false /\
  target_id (clickControl firewall) = controlButtonId firewall /\
  target_value (clickControl firewall) = control_cost firewall /\
  controlButton firewall (controlsToImplement roundStart)
    (spendAvailable roundStart) = ImplementButton /\
  controlButton firewall
    (controlsToImplement
       (exec (BaseGameService._handleClickImplementControl (clickControl firewall))
             roundStart))
    (spendAvailable
       (exec (BaseGameService._handleClickImplementControl (clickControl firewall))
             roundStart))
  = RemoveButton.
Proof.
  split; [reflexivity|]. split; [reflexivity|]. split; [reflexivity|].
  split; [reflexivity|].
  apply (offered_button_round_trip firewall (clickControl firewall) roundStart);
    reflexivity.
Defined.

(** * More on the poll registry *)

(** X18. The poll registry keeps its entries apart.  Registering or
    removing the poll of one name never changes the poll of another
    name.  After [_removePoll] the name has no entry of its own and
    reads as taken only if the registry object inherits it from
    [Object.prototype]; after [_addPoll] the name reads as taken; and
    registering under a name that read as free and removing it again
    restores the registry. *)
Theorem polls_kept_apart (key other : string) (callback : Callback)
    (args : list Arg) (g : Game) :
  (other ≠ key ->
   _polls (exec (_addPoll key callback args) g) !! other = _polls g !! other /\
   _polls (exec (_removePoll key) g) !! other = _polls g !! other) /\
  _polls (exec (_removePoll key) g) !! key = None /\
  pollFound (exec (_removePoll key) g) key
  = bool_decide (key ∈ objectPrototypeNames) /\
  pollFound (exec (_addPoll key callback args) g) key = true /\
  (pollFound g key = false ->
   _polls (exec (_addPoll key callback args) g) !! key
   = Some {| poll_callback := callback; poll_args := args |} /\
   _polls (exec (_removePoll key) (exec (_addPoll key callback args) g))
   = _polls g).
Proof.
  assert (Hown : pollFound g key = false -> _polls g !! key = None).
  { intros Hfree. destruct (_polls g !! key) as [poll|] eqn:Hkey;
      [|reflexivity].
    assert (pollFound g key = true) by (apply pollFound_spec; left; eauto).
    congruence. }
  assert (Hremoved : _polls (exec (_removePoll key) g) !! key = None).
  { unfold _removePoll. run_method.
    destruct (pollFound g key) eqn:Hfound; simpl;
      [apply lookup_delete_eq | apply Hown; reflexivity]. }
  split; [|split; [exact Hremoved|split; [|split]]].
  - intros Hother. unfold _addPoll, _removePoll. run_method.
    destruct (pollFound g key); simpl;
      rewrite ?lookup_insert_ne, ?lookup_delete_ne by congruence;
      split; reflexivity.
  - unfold pollFound at 1. apply bool_decide_ext.
    rewrite Hremoved. split; [|tauto].
    intros [[poll Hpoll]|Hin]; [discriminate | exact Hin].
  - unfold _addPoll. run_method.
    destruct (pollFound g key) eqn:Hfound; simpl; [exact Hfound|].
    apply pollFound_spec. left. simpl. rewrite lookup_insert_eq. eauto.
  - intros Hfree. pose proof (Hown Hfree) as Hkey.
    unfold _addPoll, _removePoll. run_method. rewrite Hfree. simpl.
    split; [apply lookup_insert_eq|].
    replace (pollFound _ key) with true.
    + simpl. rewrite delete_insert_eq. apply delete_id. exact Hkey.
    + symmetry. apply pollFound_spec. left. simpl.
      rewrite lookup_insert_eq. eauto.
Qed.

Lemma polls_kept_apart_witness :
  "simulate-turn" ≠ "new-controls" /\
  pollFound (sampleGame Cooperative) "new-controls" = false /\
  _polls (exec (_addPoll "new-controls" cb_handleClickViewAvailableControls
                  [ArgMode tiles; ArgBool false]) (sampleGame Cooperative))
  !! "simulate-turn"
  = _polls (sampleGame Cooperative) !! "simulate-turn" /\
  _polls (exec (_removePoll "new-controls")
            (exec (_addPoll "new-controls" cb_handleClickViewAvailableControls
                     [ArgMode tiles; ArgBool false]) (sampleGame Cooperative)))
  = _polls (sampleGame Cooperative) /\
  pollFound (exec (_removePoll "toString") (sampleGame Cooperative)) "toString"
  = true.
Proof.
  assert (Hother : "simulate-turn" ≠ "new-controls") by discriminate.
  assert (Hfree : pollFound (sampleGame Cooperative) "new-controls" = false)
    by (vm_compute; reflexivity).
  split; [exact Hother|]. split; [exact Hfree|].
  destruct (polls_kept_apart "new-controls" "simulate-turn"
              cb_handleClickViewAvailableControls [ArgMode tiles; ArgBool false]
              (sampleGame Cooperative))
    as (Hapart & _ & _ & _ & Hround).
  split; [exact (proj1 (Hapart Hother))|].
  split; [exact (proj2 (Hround Hfree))|].
  destruct (polls_kept_apart "toString" "simulate-turn"
              cb_handleClickViewAvailableControls [ArgMode tiles; ArgBool false]
              (sampleGame Cooperative))
    as (_ & _ & Hinherited & _).
  rewrite Hinherited. vm_compute. reflexivity.
Defined.

(** * Element ids *)

(** X19. The handlers read back the ids the rendering service writes.
    For a control whose id has no dash, [split('-')[1]] of the id of its
    button and of the id of its tile is the control id; an id with a
    dash is cut at its first dash. *)
Theorem element_id_round_trip (control : Control) (id rest : string) :
  occurs "-"%char id = false ->
  (control_id control = id ->
   controlIdFrom (controlButtonId control) = Some (control_id control) /\
   controlIdFrom (controlTileId (control_id control))
   = Some (control_id control)) /\
  (control_id control = (id ++ String "-"%char rest)%string ->
   controlIdFrom (controlButtonId control) = Some id).
Proof.
  intros Hid.
  assert (Hprefix : forall x : string,
            split "-"%char ("control-" ++ x)%string
            = "control" :: split "-"%char x) by reflexivity.
  unfold controlIdFrom, controlButtonId, controlTileId.
  split.
  - intros ->. rewrite !Hprefix. split.
    + rewrite (split_without_separator _ _ Hid). reflexivity.
    + change (id ++ "-tile")%string with (id ++ String "-"%char "tile")%string.
      rewrite (split_at_separator _ _ _ Hid). reflexivity.
  - intros ->. rewrite Hprefix, (split_at_separator _ _ _ Hid). reflexivity.
Qed.

Lemma element_id_round_trip_witness :
  occurs "-"%char "c1" = false /\
  control_id firewall = "c1" /\
  controlIdFrom (controlButtonId firewall) = Some (control_id firewall) /\
  controlIdFrom (controlTileId (control_id firewall)) = Some (control_id firewall).
Proof.
  split; [reflexivity|]. split; [reflexivity|].
  apply (element_id_round_trip firewall "c1" ""); reflexivity.
Defined.

(** * Placing all staged controls *)

Lemma list_find_unique_id (catalogue : list Control) (control : Control) :
  NoDup (control_id <$> catalogue) ->
  control ∈ catalogue ->
  exists i : nat,
    list_find (fun c => Some (control_id c) = Some (control_id control))
              catalogue
    = Some (i, control).
Proof.
  intros Hnodup Hin.
  apply list_elem_of_lookup_1 in Hin as [i Hi].
  exists i. apply list_find_Some. split; [exact Hi|]. split; [reflexivity|].
  intros j other Hj Hlt Hsame. injection Hsame as Hsame.
  assert (Hmi : (control_id <$> catalogue) !! i = Some (control_id control))
    by (rewrite list_lookup_fmap, Hi; reflexivity).
  assert (Hmj : (control_id <$> catalogue) !! j = Some (control_id control))
    by (rewrite list_lookup_fmap, Hj; simpl; congruence).
  pose proof (NoDup_lookup _ _ _ _ Hnodup Hmi Hmj). lia.
Qed.

(** A click inside the tile of a catalogue control picks it. *)
Lemma placable_tile_effect (control : Control) (g : Game) :
  NoDup (control_id <$> newControls g) ->
  control ∈ newControls g ->
  occurs "-"%char (control_id control) = false ->
  exists shown : list Effect,
    exec (BaseGameService._handleClickPlacableControl (tileClick control)) g
    = set_effects (effects g ++ shown) (set_placingControl (Some control) g).
Proof.
  intros Hnodup Hin Hdash.
  destruct (list_find_unique_id _ _ Hnodup Hin) as [i Hfind].
  pose proof (controlTileId_parsed (control_id control) Hdash) as Hparse.
  unfold BaseGameService._handleClickPlacableControl.
  run_method. rewrite Hparse, Hfind. simpl.
  rewrite set_effects_set_effects, <- app_assoc.
  eexists. reflexivity.
Qed.

(** A click on the asset of the candidate, up to the call of
    [_placeControls]. *)
Lemma right_asset_effect (AssetLocations : gmap string Asset)
    (event : Event) (placing : Control) (g : Game) :
  state g = Placing ->
  _placingControl g = Some placing ->
  control_asset placing = parent_asset_id event ->
  exists shown : list Effect,
    (Ajax (PatchAddControl (control_id placing)) ∈ shown) /\
    exec (BaseGameService._handleClickAssetIcon AssetLocations event) g
    = exec BaseGameService._placeControls
        (set_effects (effects g ++ shown)
           (set_placingControl None
              (set_controlsToImplement
                 (filter (fun id => Some (control_id placing) ≠ id)
                         (controlsToImplement g)) g))).
Proof.
  intros Hstate Hplacing Hasset.
  unfold BaseGameService._handleClickAssetIcon, BaseGameService._implementControl.
  run_method. rewrite Hstate, Hplacing.
  destruct (decide (control_asset placing = parent_asset_id event));
    [|contradiction].
  simpl.
  exists [Ajax (PatchAddControl (control_id placing)); SetBannerHtml "Placing";
          WindowAlert "Correct!"].
  split; [apply list_elem_of_here|].
  rewrite <- !app_assoc. reflexivity.
Qed.

Lemma placeOne_effect (AssetLocations : gmap string Asset)
    (control : Control) (g : Game) :
  state g = Placing ->
  NoDup (control_id <$> newControls g) ->
  control ∈ newControls g ->
  occurs "-"%char (control_id control) = false ->
  let g' := placeOne AssetLocations control g in
  state g' = Placing /\
  newControls g' = newControls g /\
  spendAvailable g' = spendAvailable g /\
  spendAllocated g' = spendAllocated g /\
  _placingControl g' = None /\
  controlsToImplement g'
  = filter (fun id => Some (control_id control) ≠ id) (controlsToImplement g) /\
  (forall effect : Effect, effect ∈ effects g -> effect ∈ effects g') /\
  (Ajax (PatchAddControl (control_id control)) ∈ effects g') /\
  last (effects g')
  = Some (match controlsToImplement g' with
          | [] => Ajax PostSimulateTurn
          | _ :: _ =>
              RenderControlPlacementModal
                (filter (fun c => Some (control_id c) ∈ controlsToImplement g')
                        (newControls g))
          end).
Proof.
  intros Hstate Hnodup Hin Hdash. unfold placeOne.
  destruct (placable_tile_effect control g Hnodup Hin Hdash) as [shown Hpick].
  rewrite Hpick. clear Hpick.
  set (picked := set_effects (effects g ++ shown)
                   (set_placingControl (Some control) g)).
  destruct (right_asset_effect AssetLocations (ownAssetClick control) control
              picked Hstate eq_refl eq_refl) as (shown' & Hpatch & Hplace).
  rewrite Hplace. clear Hplace.
  set (inner := set_effects (effects picked ++ shown')
                  (set_placingControl None
                     (set_controlsToImplement
                        (filter (fun id => Some (control_id control) ≠ id)
                                (controlsToImplement picked)) picked))).
  destruct (placeControls_effect inner) as (_ & Hframe & _ & Hlast).
  pose proof (fun e => placeControls_keeps_effects e inner) as Hkeep.
  destruct Hframe as [_ _ Hst _ _ Ha Hb Hn Hs Hp _].
  cbv zeta in Hlast. rewrite Hst, Hn, Ha, Hb, Hp, Hs, Hlast.
  split; [exact Hstate|].
  repeat (split; [reflexivity|]).
  split; [|split; [|reflexivity]].
  - intros effect Heffect. apply Hkeep.
    apply elem_of_app. left. apply elem_of_app. left. exact Heffect.
  - apply Hkeep. apply elem_of_app. right. exact Hpatch.
Qed.

Lemma placeAll_keeps_effects (AssetLocations : gmap string Asset)
    (controls : list Control) (g : Game) (effect : Effect) :
  state g = Placing ->
  NoDup (control_id <$> newControls g) ->
  Forall (fun control => control ∈ newControls g /\
                         occurs "-"%char (control_id control) = false)
         controls ->
  effect ∈ effects g ->
  effect ∈ effects (placeAll AssetLocations controls g).
Proof.
  revert g. induction controls as [|control rest IH];
    intros g Hstate Hcatalogue Hall Heffect; [exact Heffect|].
  apply Forall_cons in Hall as [[Hin Hdash] Hall].
  destruct (placeOne_effect AssetLocations control g Hstate Hcatalogue Hin Hdash)
    as (Hst & Hn & _ & _ & _ & _ & Hkeep & _).
  simpl. apply IH;
    [exact Hst | rewrite Hn; exact Hcatalogue | rewrite Hn; exact Hall
    | apply Hkeep, Heffect].
Qed.

(** X20. Placing all staged controls ends the round.  In the Placing
    phase, with the staged list naming distinct controls of the
    catalogue (ids distinct and free of dashes), picking each staged
    control and clicking the asset it belongs on, in the staged order,
    asks the server to implement every one of them, leaves nothing
    staged and no candidate, keeps the ledger figures, and finishes by
    posting the simulate-turn request. *)
Theorem placing_all_ends_round (AssetLocations : gmap string Asset)
    (controls : list Control) (g : Game) :
  state g = Placing ->
  controls ≠ [] ->
  NoDup (control_id <$> newControls g) ->
  NoDup (control_id <$> controls) ->
  Forall (fun control => control ∈ newControls g /\
                         occurs "-"%char (control_id control) = false)
         controls ->
  controlsToImplement g = (fun control => Some (control_id control)) <$> controls ->
  controlsToImplement (placeAll AssetLocations controls g) = [] /\
  _placingControl (placeAll AssetLocations controls g) = None /\
  spendAvailable (placeAll AssetLocations controls g) = spendAvailable g /\
  spendAllocated (placeAll AssetLocations controls g) = spendAllocated g /\
  Forall (fun control =>
            Ajax (PatchAddControl (control_id control))
            ∈ effects (placeAll AssetLocations controls g))
         controls /\
  last (effects (placeAll AssetLocations controls g))
  = Some (Ajax PostSimulateTurn).
Proof.
  intros Hstate Hnonempty Hcatalogue.
  revert g Hstate Hcatalogue Hnonempty.
  induction controls as [|control rest IH];
    intros g Hstate Hcatalogue Hnonempty Hnodup Hall Hstaged;
    [contradiction|].
  apply Forall_cons in Hall as [[Hin Hdash] Hall].
  rewrite fmap_cons in Hnodup. apply NoDup_cons in Hnodup as [Hfresh Hnodup].
  destruct (placeOne_effect AssetLocations control g Hstate Hcatalogue Hin Hdash)
    as (Hst & Hn & Ha & Hb & Hp & Hs & Hkeep & Hpatch & Hlast).
  assert (Hrest : controlsToImplement (placeOne AssetLocations control g)
                  = (fun c => Some (control_id c)) <$> rest).
  { rewrite Hs, Hstaged, fmap_cons.
    rewrite filter_cons_False by (intros Hne; apply Hne; reflexivity).
    clear -Hfresh. induction rest as [|c rest IH]; [reflexivity|].
    rewrite fmap_cons in *. apply not_elem_of_cons in Hfresh as [Hne Hfresh].
    rewrite filter_cons_True by congruence.
    rewrite (IH Hfresh). reflexivity. }
  simpl.
  destruct rest as [|next rest'].
  - simpl. rewrite Hrest in Hlast. simpl in Hlast.
    split; [exact Hrest|]. split; [exact Hp|]. split; [exact Ha|].
    split; [exact Hb|]. split; [|exact Hlast].
    constructor; [exact Hpatch | constructor].
  - destruct (IH (placeOne AssetLocations control g)) as
      (Hs' & Hp' & Ha' & Hb' & Hpatches & Hlast');
      [exact Hst | rewrite Hn; exact Hcatalogue | discriminate | exact Hnodup
      | rewrite Hn; exact Hall | exact Hrest |].
    split; [exact Hs'|]. split; [exact Hp'|].
    split; [rewrite Ha'; exact Ha|]. split; [rewrite Hb'; exact Hb|].
    split; [|exact Hlast'].
    constructor; [|exact Hpatches].
    apply (placeAll_keeps_effects AssetLocations (next :: rest'));
      [exact Hst | rewrite Hn; exact Hcatalogue | rewrite Hn; exact Hall
      | exact Hpatch].
Qed.

Lemma placing_all_ends_round_witness :
  state placingTwo = Placing /\
  [firewall; training] ≠ [] /\
  NoDup (control_id <$> newControls placingTwo) /\
  NoDup (control_id <$> [firewall; training]) /\
  Forall (fun control => control ∈ newControls placingTwo /\
                         occurs "-"%char (control_id control) = false)
         [firewall; training] /\
  controlsToImplement placingTwo
  = (fun control => Some (control_id control)) <$> [firewall; training] /\
  controlsToImplement (placeAll ∅ [firewall; training] placingTwo) = [] /\
  last (effects (placeAll ∅ [firewall; training] placingTwo))
  = Some (Ajax PostSimulateTurn).
Proof.
  assert (Hstate : state placingTwo = Placing) by reflexivity.
  assert (Hnonempty : [firewall; training] ≠ []) by discriminate.
  assert (Hcatalogue : NoDup (control_id <$> newControls placingTwo))
    by (apply (bool_decide_unpack _); vm_compute; exact I).
  assert (Hnodup : NoDup (control_id <$> [firewall; training]))
    by (apply (bool_decide_unpack _); vm_compute; exact I).
  assert (Hall :
    Forall (fun control => control ∈ newControls placingTwo /\
                           occurs "-"%char (control_id control) = false)
           [firewall; training]).
  { repeat constructor; apply (bool_decide_unpack _); vm_compute; exact I. }
  assert (Hstaged :
    controlsToImplement placingTwo
    = (fun control => Some (control_id control)) <$> [firewall; training])
    by reflexivity.
  split; [exact Hstate|]. split; [exact Hnonempty|]. split; [exact Hcatalogue|].
  split; [exact Hnodup|]. split; [exact Hall|]. split; [exact Hstaged|].
  split.
  - apply (placing_all_ends_round ∅ [firewall; training] placingTwo
             Hstate Hnonempty Hcatalogue Hnodup Hall Hstaged).
  - apply (placing_all_ends_round ∅ [firewall; training] placingTwo
             Hstate Hnonempty Hcatalogue Hnodup Hall Hstaged).
Defined.

(** * The poll of the available-controls modal *)

(** X22. In a co-operative game the poll of the available-controls
    modal keeps the view mode of the first opening.  Opening the modal
    registers the poll "new-controls" under a free name with the mode
    shown; showing the modal again in another mode renders that mode
    but leaves the registered arguments on the first one, so the next
    poll falls back to it.  Neither call touches the ledger or the
    votes. *)
Theorem available_controls_poll_keeps_first_mode (mode mode' : ViewMode)
    (g : Game) :
  _polls g !! "new-controls" = None ->
  completion (_handleClickViewAvailableControls_cooperative mode') 
             (exec (_handleClickViewAvailableControls_cooperative mode) g)
  = Normal tt /\
  _polls (exec (_handleClickViewAvailableControls_cooperative mode')
            (exec (_handleClickViewAvailableControls_cooperative mode) g))
  !! "new-controls"
  = Some {| poll_callback := cb_handleClickViewAvailableControls;
            poll_args := [ArgMode mode; ArgBool false] |} /\
  last (effects (exec (_handleClickViewAvailableControls_cooperative mode')
                   (exec (_handleClickViewAvailableControls_cooperative mode) g)))
  = Some (RenderAvailableControlsModal
            (map (fun c => (control_id c,
                            controlButton c (controlsToImplement g)
                                          (spendAvailable g)))
                 (newControls g))
            mode' (Some (_getVoteSummaries g))) /\
  unchangedRound g
    (exec (_handleClickViewAvailableControls_cooperative mode')
       (exec (_handleClickViewAvailableControls_cooperative mode) g)) /\
  _votes (exec (_handleClickViewAvailableControls_cooperative mode')
            (exec (_handleClickViewAvailableControls_cooperative mode) g))
  = _votes g.
Proof.
  intros Hfree.
  assert (Hown : "new-controls" ∉ objectPrototypeNames)
    by (apply (bool_decide_unpack _); vm_compute; exact I).
  pose proof (pollFound_free g "new-controls" Hfree Hown) as Hnone.
  unfold _handleClickViewAvailableControls_cooperative,
    renderAvailableControlsModal, _addPoll.
  run_method.
  change (pollFound (set_effects ?l g) "new-controls")
    with (pollFound g "new-controls").
  rewrite Hnone. simpl.
  replace (pollFound _ "new-controls") with true
    by (symmetry; apply pollFound_spec; left; simpl;
        rewrite lookup_insert_eq; eauto).
  simpl.
  split; [reflexivity|]. split; [apply lookup_insert_eq|].
  split; [rewrite last_snoc; reflexivity|].
  split; [constructor; reflexivity | reflexivity].
Qed.

Lemma available_controls_poll_keeps_first_mode_witness :
  _polls (sampleGame Cooperative) !! "new-controls" = None /\
  _polls (exec (_handleClickViewAvailableControls_cooperative table)
            (exec (_handleClickViewAvailableControls_cooperative tiles)
                  (sampleGame Cooperative)))
  !! "new-controls"
  = Some {| poll_callback := cb_handleClickViewAvailableControls;
            poll_args := [ArgMode tiles; ArgBool false] |}.
Proof.
  assert (Hfree : _polls (sampleGame Cooperative) !! "new-controls" = None)
    by (vm_compute; reflexivity).
  split; [exact Hfree|].
  apply (available_controls_poll_keeps_first_mode tiles table
           (sampleGame Cooperative) Hfree).
Defined.

